(** * impy.ImagePreprocess: patch grids, padding, ROI adjustment, box clipping

    A shallow embedding of [impy/ImagePreprocess.py] and the properties of
    its geometry routines.  Python integers are unbounded, hence [Z].
    A Python exception is a value of [exn]; a routine that can raise returns
    a [result].  The two [while(True)] loops of [get_valid_padding] and
    [get_same_padding] need not exit, so they run on fuel: [None] means the
    loop was still running when the fuel ran out. *)

From Stdlib Require Import ZArith List Lia Bool String Arith.
Import ListNotations.
Open Scope Z_scope.

(** ** Exceptions and results *)

Inductive exn : Type :=
| Exception (msg : string)
| ValueError (msg : string)
| AssertionError (msg : string)
| IndexError
| ZeroDivisionError.

Inductive result (A : Type) : Type :=
| Ok (a : A)
| Raise (e : exn).
Arguments Ok {A} a.
Arguments Raise {A} e.

Definition bind {A B : Type} (r : result A) (k : A -> result B) : result B :=
  match r with
  | Ok a => k a
  | Raise e => Raise e
  end.

Notation "x <- r ;; k" := (bind r (fun x => k))
  (at level 61, r at next level, right associativity).

(** ** The counting loop shared by get_valid_padding and get_same_padding

    <<
    while(True):
      if slide_window <= image:
        slide_window += stride
        number_patches += 1
      elif slide_window > image:
        break
      else:
        continue
    >>
    The loop state is the grown window and the counter; both are returned,
    since [get_same_padding] reads the grown window afterwards. *)

Fixpoint grow (fuel : nat) (slide_window stride image number_patches : Z)
  : option (Z * Z) :=
  match fuel with
  | O => None
  | S fuel' =>
      if slide_window <=? image then
        grow fuel' (slide_window + stride) stride image (number_patches + 1)
      else if slide_window >? image then
        Some (slide_window, number_patches)
      else
        grow fuel' slide_window stride image number_patches
  end.

Definition get_valid_padding (fuel : nat)
  (slide_window_height stride_height image_height
   slide_window_width stride_width image_width : Z) : option (Z * Z) :=
  match grow fuel slide_window_height stride_height image_height 0 with
  | None => None
  | Some (_, number_patches_height) =>
      match grow fuel slide_window_width stride_width image_width 0 with
      | None => None
      | Some (_, number_patches_width) =>
          Some (number_patches_height, number_patches_width)
      end
  end.

(** The zeros of one axis, after the loop and the [-= stride] fix-up. *)
Definition same_zeros (slide_window stride image : Z) (msg : string)
  : result Z :=
  if slide_window =? image then Ok 0
  else if slide_window <? image then Ok ((slide_window + stride) - image)
  else Raise (AssertionError msg).

Definition get_same_padding (fuel : nat)
  (slide_window_height stride_height image_height
   slide_window_width stride_width image_width : Z)
  : option (result (Z * Z)) :=
  match grow fuel slide_window_height stride_height image_height 0 with
  | None => None
  | Some (grown_height, _) =>
      match grow fuel slide_window_width stride_width image_width 0 with
      | None => None
      | Some (grown_width, _) =>
          let slide_window_height := grown_height - stride_height in
          let slide_window_width := grown_width - stride_width in
          Some (zeros_w <- same_zeros slide_window_width stride_width
                             image_width
                             "Slide window + stride is bigger than width" ;;
                zeros_h <- same_zeros slide_window_height stride_height
                             image_height
                             "Slide window + stride is bigger than height" ;;
                Ok (zeros_h, zeros_w))
      end
  end.

(** The closed form of the specification, one axis. *)
Definition countValidPatches_spec (windowDim strideDim targetDim : Z) : Z :=
  if windowDim >? targetDim then 0
  else (targetDim - windowDim) / strideDim + 1.

Definition fittedExtent_spec (windowDim strideDim targetDim : Z) : Z :=
  windowDim + strideDim * (countValidPatches_spec windowDim strideDim targetDim - 1).

Definition computeSamePadding_spec (windowDim strideDim targetDim : Z) : Z :=
  let fittedExtent := fittedExtent_spec windowDim strideDim targetDim in
  if fittedExtent =? targetDim then 0
  else fittedExtent + strideDim - targetDim.

(** ** Boxes

    A bounding box, a crop rectangle and a patch are Python lists or tuples
    of four ints, read by position: 0 and 2 on the x axis, 1 and 3 on the
    y axis. *)

Record Box : Type := mkBox { b0 : Z; b1 : Z; b2 : Z; b3 : Z }.

(** Python's [min] and [max] of a list raise on the empty list. *)
Definition py_min (l : list Z) : result Z :=
  match l with
  | [] => Raise (ValueError "min() arg is an empty sequence")
  | x :: xs => Ok (fold_left Z.min xs x)
  end.

Definition py_max (l : list Z) : result Z :=
  match l with
  | [] => Raise (ValueError "max() arg is an empty sequence")
  | x :: xs => Ok (fold_left Z.max xs x)
  end.

(** ** adjustImage *)

(** [x_coordinates] and [y_coordinates] after the loop over the boxes. *)
Definition x_coordinates (boundingBoxes : list Box) : list Z :=
  flat_map (fun bndbox => [b0 bndbox; b2 bndbox]) boundingBoxes.

Definition y_coordinates (boundingBoxes : list Box) : list Z :=
  flat_map (fun bndbox => [b1 bndbox; b3 bndbox]) boundingBoxes.

(** [offsetX] from [RoiX] and [widthOffset] (and the same on y). *)
Definition axis_offset (Roi axisOffset : Z) : Z :=
  if Roi >=? axisOffset then 10 else axisOffset - Roi.

(** "Add space on X": lines 135-183, returning [(RoiXMin, RoiXMax)]. *)
Definition space_on_x (xmin xmax offsetXLeft offsetXRight frameWidth : Z)
  : Z * Z :=
  if xmin - offsetXLeft <? 0 then
    let RoiXMin := 0 in
    let availableSpaceLeft := xmin in
    let offsetXLeft := offsetXLeft - availableSpaceLeft in
    if xmax + offsetXLeft + offsetXRight <? frameWidth then
      (RoiXMin, xmax + offsetXLeft + offsetXRight)
    else if xmax + offsetXLeft + offsetXRight =? frameWidth then
      (RoiXMin, frameWidth)
    else if xmax + offsetXRight <? frameWidth then
      (RoiXMin, xmax + offsetXRight)
    else if xmax + offsetXRight =? frameWidth then
      (RoiXMin, frameWidth)
    else
      (RoiXMin, frameWidth)
  else
    let RoiXMin := xmin - offsetXLeft in
    if xmax + offsetXRight <? frameWidth then
      (RoiXMin, xmax + offsetXRight)
    else if xmax + offsetXRight =? frameWidth then
      (RoiXMin, frameWidth)
    else
      let RoiXMax := frameWidth in
      let availableSpaceRight := frameWidth - xmax in
      let offsetXRight := offsetXRight - availableSpaceRight in
      if xmin - offsetXLeft - offsetXRight >? 0 then
        (xmin - offsetXLeft - offsetXRight, RoiXMax)
      else if xmin - offsetXLeft - offsetXRight =? 0 then
        (0, RoiXMax)
      else
        (RoiXMin, RoiXMax).

(** "Add space on y": lines 186-233, returning [(RoiYMin, RoiYMax)].  Line
    216 adds [offsetYTop] where the x axis adds [offsetXRight]. *)
Definition space_on_y (ymin ymax offsetYTop offsetYBottom frameHeight : Z)
  : Z * Z :=
  if ymin - offsetYTop <? 0 then
    let RoiYMin := 0 in
    let availableSpaceTop := ymin in
    let offsetYTop' := offsetYTop - availableSpaceTop in
    if ymax + offsetYTop' + offsetYBottom <? frameHeight then
      (RoiYMin, ymax + offsetYTop' + offsetYBottom)
    else if ymax + offsetYTop' + offsetYBottom =? frameHeight then
      (RoiYMin, frameHeight)
    else if ymax + offsetYBottom <? frameHeight then
      (RoiYMin, ymax + offsetYBottom)
    else if ymax + offsetYBottom =? frameHeight then
      (RoiYMin, frameHeight)
    else
      (RoiYMin, frameHeight)
  else
    let RoiYMin := ymin - offsetYTop in
    if ymax + offsetYBottom <? frameHeight then
      (RoiYMin, ymax + offsetYTop)
    else if ymax + offsetYBottom =? frameHeight then
      (RoiYMin, frameHeight)
    else
      let RoiYMax := frameHeight in
      let availableSpaceBottom := frameHeight - ymax in
      let offsetYBottom := offsetYBottom - availableSpaceBottom in
      if ymin - offsetYTop - offsetYBottom >? 0 then
        (ymin - offsetYTop - offsetYBottom, RoiYMax)
      else if ymin - offsetYTop - offsetYBottom =? 0 then
        (0, RoiYMax)
      else
        (RoiYMin, RoiYMax).

(** The offset after the "smaller than offset" fallback of lines 89-94. *)
Definition effective_offset (frameHeight frameWidth w h : Z) : Z * Z :=
  if (frameWidth <=? w) || (frameHeight <=? h) then
    let smallerAxis := Z.min frameWidth frameHeight - 10 in
    (smallerAxis, smallerAxis)
  else (w, h).

(** [offset] is a list or a tuple of ints (anything else is a TypeError,
    which the type of [offset] leaves out); an argument left out is
    [None]. *)
Definition adjustImage (frameHeight frameWidth : option Z)
  (boundingBoxes : option (list Box)) (offset : option (list Z))
  : result Box :=
  match frameHeight with
  | None => Raise (Exception "Parameter frameHeight cannot be empty.")
  | Some frameHeight =>
  match frameWidth with
  | None => Raise (Exception "Parameter frameWidth cannot be empty.")
  | Some frameWidth =>
  match boundingBoxes with
  | None => Raise (Exception "Parameter bndboxes cannot be empty.")
  | Some localBoundingBoxes =>
  match offset with
  | None => Raise (Exception "Parameter offset cannot be empty.")
  | Some [w; h] =>
      let '(widthOffset, heightOffset) :=
        effective_offset frameHeight frameWidth w h in
      xmin <- py_min (x_coordinates localBoundingBoxes) ;;
      xmax <- py_max (x_coordinates localBoundingBoxes) ;;
      ymin <- py_min (y_coordinates localBoundingBoxes) ;;
      ymax <- py_max (y_coordinates localBoundingBoxes) ;;
      let RoiX := xmax - xmin in
      let RoiY := ymax - ymin in
      let offsetY := axis_offset RoiY heightOffset in
      let offsetX := axis_offset RoiX widthOffset in
      let offsetXLeft := offsetX / 2 in
      let offsetXRight := offsetX - offsetXLeft in
      let offsetYTop := offsetY - offsetY / 2 in
      let offsetYBottom := offsetY - offsetYTop in
      let '(RoiXMin, RoiXMax) :=
        space_on_x xmin xmax offsetXLeft offsetXRight frameWidth in
      let '(RoiYMin, RoiYMax) :=
        space_on_y ymin ymax offsetYTop offsetYBottom frameHeight in
      Ok (mkBox RoiXMin RoiYMin RoiXMax RoiYMax)
  | Some _ =>
      Raise (ValueError
               "Parameter offset has to be of length 2 (width, height).")
  end end end end.

(** The quantities the specification names, for the statements below. *)
Definition unionBox (boxes : list Box) : result Box :=
  xmin <- py_min (x_coordinates boxes) ;;
  xmax <- py_max (x_coordinates boxes) ;;
  ymin <- py_min (y_coordinates boxes) ;;
  ymax <- py_max (y_coordinates boxes) ;;
  Ok (mkBox xmin ymin xmax ymax).

(** Every coordinate of the box is a coordinate of the frame. *)
Definition inside_frame (frameWidth frameHeight : Z) (b : Box) : Prop :=
  (0 <= b0 b <= frameWidth /\ 0 <= b2 b <= frameWidth)
  /\ (0 <= b1 b <= frameHeight /\ 0 <= b3 b <= frameHeight).

(** ** includeBoundingBoxes *)

(** One iteration of the loop: [None] when the box is skipped. *)
Definition include_box (edges b : Box) : result (option Box) :=
  let '(ix, iy, x, y) := (b0 edges, b1 edges, b2 edges, b3 edges) in
  let '(bix, biy, bx, by_) := (b0 b, b1 b, b2 b, b3 b) in
  if ((bix >=? ix) && (bx <=? x)) && ((biy >=? iy) && (by_ <=? y)) then
    let bix := bix - ix in
    let bx := bx - ix in
    let biy := biy - iy in
    let by_ := by_ - iy in
    if (bix <? 0) || (biy <? 0) then
      Raise (Exception
        "ERROR: One of the bounding boxes is negative. Report this problem.")
    else
      let bx := if bx =? x - ix then bx - 1 else bx in
      let by_ := if by_ =? y - iy then by_ - 1 else by_ in
      Ok (Some (mkBox bix biy bx by_))
  else Ok None.

(** The loop [for i in range(len(boundingBoxes))], reading
    [boundingBoxes[i]] and [names[i]] in step: a list of names that runs
    out first is an [IndexError]. *)
Fixpoint include_loop (edges : Box) (boundingBoxes : list Box)
  (names : list string) (newBoundingBoxes : list Box)
  (newNames : list string) : result (list Box * list string) :=
  match boundingBoxes with
  | [] => Ok (newBoundingBoxes, newNames)
  | b :: rest =>
      match names with
      | [] => Raise IndexError
      | name :: names' =>
          r <- include_box edges b ;;
          match r with
          | Some b' =>
              include_loop edges rest names'
                (newBoundingBoxes ++ [b']) (newNames ++ [name])
          | None =>
              include_loop edges rest names' newBoundingBoxes newNames
          end
      end
  end.

Definition includeBoundingBoxes (edges : option Box)
  (boundingBoxes : option (list Box)) (names : option (list string))
  : result (list Box * list string) :=
  match edges with
  | None => Raise (ValueError "Edges cannot be emtpy.")
  | Some edges =>
  match boundingBoxes with
  | None => Raise (ValueError "Bounding boxes cannot be empty.")
  | Some boundingBoxes =>
  match names with
  | None => Raise (ValueError "Names cannot be empty.")
  | Some names => include_loop edges boundingBoxes names [] []
  end end end.

(** The containment test and the translation in the words of the
    specification. *)
Definition contained (crop b : Box) : bool :=
  (b0 b >=? b0 crop) && (b2 b <=? b2 crop)
  && (b1 b >=? b1 crop) && (b3 b <=? b3 crop).

Definition translate (crop b : Box) : Box :=
  let cropWidth := b2 crop - b0 crop in
  let cropHeight := b3 crop - b1 crop in
  let localMaxX := b2 b - b0 crop in
  let localMaxY := b3 b - b1 crop in
  mkBox (b0 b - b0 crop) (b1 b - b1 crop)
        (if localMaxX =? cropWidth then localMaxX - 1 else localMaxX)
        (if localMaxY =? cropHeight then localMaxY - 1 else localMaxY).

Definition clip_spec (crop : Box) (labelled : list (Box * string))
  : list (Box * string) :=
  map (fun bl => (translate crop (fst bl), snd bl))
      (filter (fun bl => contained crop (fst bl)) labelled).

(** ** divideIntoPatches *)

(** The variables the nested [for] loops update. *)
Record cursor : Type := mkCursor {
  startPixelsWidth : Z;
  endPixelsWidth : Z;
  startPixelsHeight : Z;
  endPixelsHeight : Z;
  patchesCoordinates : list Box
}.

(** [for _ in range(n): body], for a body that does not read the index. *)
Fixpoint iterate {S : Type} (n : nat) (body : S -> S) (s : S) : S :=
  match n with
  | O => s
  | S n' => iterate n' body (body s)
  end.

Definition for_range {S : Type} (n : Z) (body : S -> S) (s : S) : S :=
  iterate (Z.to_nat n) body s.

Definition column_body (strideWidth : Z) (c : cursor) : cursor :=
  mkCursor (startPixelsWidth c + strideWidth)
           (endPixelsWidth c + strideWidth)
           (startPixelsHeight c)
           (endPixelsHeight c)
           (patchesCoordinates c
              ++ [mkBox (startPixelsWidth c) (startPixelsHeight c)
                        (endPixelsWidth c) (endPixelsHeight c)]).

(** [resetWidth] is what [endPixelsWidth] is set back to after a row:
    [slideWindowWidth] for VALID and SAME, [strideWidth] for
    VALID_FIT_ALL. *)
Definition row_body (numberPatchesWidth strideWidth strideHeight
                     resetWidth : Z) (c : cursor) : cursor :=
  let c := for_range numberPatchesWidth (column_body strideWidth) c in
  mkCursor 0 resetWidth
           (startPixelsHeight c + strideHeight)
           (endPixelsHeight c + strideHeight)
           (patchesCoordinates c).

Definition enumerate_patches (numberPatchesHeight numberPatchesWidth
  slideWindowWidth slideWindowHeight strideWidth strideHeight
  resetWidth : Z) : list Box :=
  patchesCoordinates
    (for_range numberPatchesHeight
       (row_body numberPatchesWidth strideWidth strideHeight resetWidth)
       (mkCursor 0 slideWindowWidth 0 slideWindowHeight [])).

(** The window and stride normalisation of lines 329-345. *)
Definition clamp_to_image (dim image : Z) : Z :=
  if dim >? image then image - 1 else dim.

(** VALID and VALID_FIT_ALL return a 3-tuple, SAME a 5-tuple. *)
Inductive patches : Type :=
| Patches3 (coordinates : list Box)
    (numberPatchesHeight numberPatchesWidth : Z)
| Patches5 (coordinates : list Box)
    (numberPatchesHeight numberPatchesWidth zeros_h zeros_w : Z).

Definition or_default {A : Type} (o : option A) (d : A) : A :=
  match o with Some a => a | None => d end.

(** [math.floor(a / b)]: true division, then floor.  The quotient of two
    ints is taken exactly here (a float holds it exactly up to 2^53). *)
Definition floor_div (a b : Z) : result Z :=
  if b =? 0 then Raise ZeroDivisionError else Ok (a / b).

Definition divideIntoPatches (fuel : nat) (imageWidth imageHeight : option Z)
  (slideWindowSize strideSize : option (Z * Z)) (padding : option string)
  (numberPatches : option (Z * Z)) : option (result patches) :=
  match imageWidth with
  | None => Some (Raise (Exception "Image width cannot be empty."))
  | Some imageWidth =>
  match imageHeight with
  | None => Some (Raise (Exception "Image height cannot be empty."))
  | Some imageHeight =>
  let slideWindowSize := or_default slideWindowSize (0, 0) in
  let strideSize := or_default strideSize (0, 0) in
  let padding := or_default padding "VALID"%string in
  let numberPatches := or_default numberPatches (1, 1) in
  let slideWindowHeight := clamp_to_image (snd slideWindowSize) imageHeight in
  let slideWindowWidth := clamp_to_image (fst slideWindowSize) imageWidth in
  let strideHeight := clamp_to_image (snd strideSize) imageHeight in
  let strideWidth := clamp_to_image (fst strideSize) imageWidth in
  if String.eqb padding "VALID" then
    match get_valid_padding fuel slideWindowHeight strideHeight imageHeight
            slideWindowWidth strideWidth imageWidth with
    | None => None
    | Some (numberPatchesHeight, numberPatchesWidth) =>
        Some (Ok (Patches3
          (enumerate_patches numberPatchesHeight numberPatchesWidth
             slideWindowWidth slideWindowHeight strideWidth strideHeight
             slideWindowWidth)
          numberPatchesHeight numberPatchesWidth))
    end
  else if String.eqb padding "SAME" then
    match get_same_padding fuel slideWindowHeight strideHeight imageHeight
            slideWindowWidth strideWidth imageWidth with
    | None => None
    | Some (Raise e) => Some (Raise e)
    | Some (Ok (zeros_h, zeros_w)) =>
        let imageWidth := imageWidth + zeros_w in
        let imageHeight := imageHeight + zeros_h in
        match get_valid_padding fuel slideWindowHeight strideHeight
                imageHeight slideWindowWidth strideWidth imageWidth with
        | None => None
        | Some (numberPatchesHeight, numberPatchesWidth) =>
            Some (Ok (Patches5
              (enumerate_patches numberPatchesHeight numberPatchesWidth
                 slideWindowWidth slideWindowHeight strideWidth strideHeight
                 slideWindowWidth)
              numberPatchesHeight numberPatchesWidth zeros_h zeros_w))
        end
    end
  else if String.eqb padding "VALID_FIT_ALL" then
    let patchesCols := fst numberPatches in
    let patchesRows := snd numberPatches in
    match floor_div imageHeight patchesRows with
    | Raise e => Some (Raise e)
    | Ok strideHeight =>
    let slideWindowHeight := strideHeight in
    match floor_div imageWidth patchesCols with
    | Raise e => Some (Raise e)
    | Ok strideWidth =>
    let slideWindowWidth := strideWidth in
    match get_valid_padding fuel slideWindowHeight strideHeight imageHeight
            slideWindowWidth strideWidth imageWidth with
    | None => None
    | Some (numberPatchesHeight, numberPatchesWidth) =>
        Some (Ok (Patches3
          (enumerate_patches numberPatchesHeight numberPatchesWidth
             slideWindowWidth slideWindowHeight strideWidth strideHeight
             strideWidth)
          numberPatchesHeight numberPatchesWidth))
    end end end
  else Some (Raise (Exception "Type of padding not understood."))
  end end.

(** The patch of row [i], column [j], in the words of the specification. *)
Definition patch_at (windowWidth windowHeight strideWidth strideHeight : Z)
  (i j : Z) : Box :=
  mkBox (j * strideWidth) (i * strideHeight)
        (j * strideWidth + windowWidth) (i * strideHeight + windowHeight).

Definition row_major (rowCount colCount : nat)
  (windowWidth windowHeight strideWidth strideHeight : Z) : list Box :=
  flat_map (fun i =>
    map (fun j => patch_at windowWidth windowHeight strideWidth strideHeight
                    (Z.of_nat i) (Z.of_nat j))
        (seq 0 colCount))
    (seq 0 rowCount).

(** ** lazySAMEpad

    A frame is an array of shape [(rows, cols, 3)]: its rows, each a list of
    pixels.  The shape is carried along, as numpy does (an array without
    rows still has its [cols]).  The pixel type is left open; [zero] is the
    pixel [np.zeros] makes.  The amounts of zeros count pixels, hence
    [nat]. *)

Section Frames.

Variable px : Type.
Variable zero : px.

Record ndarray : Type := mkArray {
  shape_rows : nat;
  shape_cols : nat;
  pixels : list (list px)
}.

(** The arrays numpy can build: as many rows as the shape says, each as
    long as the shape says. *)
Definition rectangular (a : ndarray) : Prop :=
  List.length (pixels a) = shape_rows a
  /\ Forall (fun row => List.length row = shape_cols a) (pixels a).

(** [np.zeros((r, c, 3))] *)
Definition np_zeros (r c : nat) : ndarray :=
  mkArray r c (repeat (repeat zero c) r).

(** [r_[a, b]]: [b] below [a]. *)
Definition r_ (a b : ndarray) : ndarray :=
  mkArray (shape_rows a + shape_rows b) (shape_cols a)
          (pixels a ++ pixels b).

(** [container[:, start:stop, :] = src], row by row. *)
Definition assign_columns (start stop : nat) (container src : ndarray)
  : ndarray :=
  mkArray (shape_rows container) (shape_cols container)
    (map (fun rows2 => firstn start (fst rows2) ++ snd rows2
                         ++ skipn stop (fst rows2))
         (combine (pixels container) (pixels src))).

(** [int(zeros/2)] after the even/odd branch of lines 587-595. *)
Definition half_rounded_up (zeros : nat) : nat :=
  if Nat.even zeros then (zeros / 2)%nat else ((zeros + 1) / 2)%nat.

(** The result is [None] where the Python function falls off its end,
    which returns Python's [None]. *)
Definition lazySAMEpad (frame : ndarray) (zeros_h zeros_w : nat)
  (padding_type : string) : option ndarray :=
  if String.eqb padding_type "BOTH_SIDES" then
    let cols := shape_cols frame in
    let zeros_h := half_rounded_up zeros_h in
    let frame := r_ (r_ (np_zeros zeros_h cols) frame)
                    (np_zeros zeros_h cols) in
    let rows := shape_rows frame in
    let cols := shape_cols frame in
    let zeros_w := half_rounded_up zeros_w in
    let container := np_zeros rows (zeros_w * 2 + cols) in
    Some (assign_columns zeros_w (shape_cols container - zeros_w)
            container frame)
  else if String.eqb padding_type "ONE_SIDE" then
    let cols := shape_cols frame in
    let frame := r_ frame (np_zeros zeros_h cols) in
    let rows := shape_rows frame in
    let cols := shape_cols frame in
    let container := np_zeros rows (cols + zeros_w) in
    let container := assign_columns 0 cols container frame in
    Some (assign_columns cols (shape_cols container) container
            (np_zeros rows zeros_w))
  else None.

(** A frame between [top] rows of zeros above and below, every row
    between [left] zeros before and after. *)
Definition padded_both_sides (frame : ndarray) (top left : nat)
  : list (list px) :=
  let width := (left + shape_cols frame + left)%nat in
  repeat (repeat zero width) top
  ++ map (fun row => repeat zero left ++ row ++ repeat zero left)
       (pixels frame)
  ++ repeat (repeat zero width) top.

End Frames.

Arguments mkArray {px} _ _ _.
Arguments shape_rows {px} _.
Arguments shape_cols {px} _.
Arguments pixels {px} _.
Arguments rectangular {px} _.
Arguments np_zeros {px} _ _ _.
Arguments r_ {px} _ _.
Arguments assign_columns {px} _ _ _ _.
Arguments lazySAMEpad {px} _ _ _ _ _.
Arguments padded_both_sides {px} _ _ _ _.
(** ** The counting loop against the closed form *)

Section CountingLoop.

Variables stride image : Z.
Hypothesis stride_pos : 0 < stride.

Lemma count_step (w : Z) :
  w <= image ->
  countValidPatches_spec w stride image
  = countValidPatches_spec (w + stride) stride image + 1.
Proof.
  intros Hle. unfold countValidPatches_spec.
  destruct (Z.gtb_spec w image) as [Hgt|_]; [lia|].
  destruct (Z.gtb_spec (w + stride) image) as [Hgt|Hle'].
  - rewrite Z.div_small by lia. reflexivity.
  - replace (image - w) with ((image - (w + stride)) + 1 * stride) by ring.
    rewrite Z.div_add by lia. ring.
Qed.

Lemma count_nonneg (w : Z) : 0 <= countValidPatches_spec w stride image.
Proof.
  unfold countValidPatches_spec.
  destruct (Z.gtb_spec w image) as [Hgt|Hle]; [lia|].
  assert (0 <= (image - w) / stride) by (apply Z.div_pos; lia). lia.
Qed.

Lemma grow_closed_form (fuel : nat) :
  forall w n,
    (Z.to_nat (image - w + 1) < fuel)%nat ->
    grow fuel w stride image n
    = Some (w + stride * countValidPatches_spec w stride image,
            n + countValidPatches_spec w stride image).
Proof.
  induction fuel as [|fuel IH]; intros w n Hfuel; [lia|].
  cbn [grow].
  destruct (Z.leb_spec w image) as [Hle|Hgt].
  - rewrite IH by lia.
    rewrite (count_step w Hle). f_equal. f_equal; ring.
  - destruct (Z.gtb_spec w image) as [_|Hle]; [|lia].
    unfold countValidPatches_spec.
    destruct (Z.gtb_spec w image) as [_|Hle]; [|lia].
    f_equal. f_equal; ring.
Qed.

End CountingLoop.

(** With a stride that does not advance, a window that fits never stops
    fitting: no amount of fuel lets the loop exit. *)
Lemma grow_diverges (fuel : nat) :
  forall w stride image n,
    stride <= 0 -> w <= image -> grow fuel w stride image n = None.
Proof.
  induction fuel as [|fuel IH]; intros w stride image n Hs Hw; [reflexivity|].
  cbn [grow].
  destruct (Z.leb_spec w image) as [_|Hgt]; [|lia].
  apply IH; lia.
Qed.

(** A window that does not fit leaves the loop at once, whatever the stride. *)
Lemma grow_exits (fuel : nat) (w stride image n : Z) :
  image < w -> grow (S fuel) w stride image n = Some (w, n).
Proof.
  intros Hw. cbn [grow].
  destruct (Z.leb_spec w image) as [Hle|_]; [lia|].
  destruct (Z.gtb_spec w image) as [_|Hle]; [reflexivity|lia].
Qed.

Lemma get_valid_padding_diverges (fuel : nat)
  (wh sh ih ww sw iw : Z) :
  (sh <= 0 /\ wh <= ih) \/ (sw <= 0 /\ ww <= iw) ->
  get_valid_padding fuel wh sh ih ww sw iw = None.
Proof.
  intros [[Hs Hw]|[Hs Hw]]; unfold get_valid_padding.
  - now rewrite grow_diverges.
  - rewrite (grow_diverges fuel ww) by assumption.
    destruct (grow fuel wh sh ih 0) as [[? ?]|]; reflexivity.
Qed.

Lemma get_same_padding_diverges (fuel : nat)
  (wh sh ih ww sw iw : Z) :
  (sh <= 0 /\ wh <= ih) \/ (sw <= 0 /\ ww <= iw) ->
  get_same_padding fuel wh sh ih ww sw iw = None.
Proof.
  intros [[Hs Hw]|[Hs Hw]]; unfold get_same_padding.
  - now rewrite grow_diverges.
  - rewrite (grow_diverges fuel ww) by assumption.
    destruct (grow fuel wh sh ih 0) as [[? ?]|]; reflexivity.
Qed.

(** [fittedExtent] never passes the target when the window fits. *)
Lemma fittedExtent_le (w s t : Z) :
  0 < s -> w <= t -> fittedExtent_spec w s t <= t < fittedExtent_spec w s t + s.
Proof.
  intros Hs Hw. unfold fittedExtent_spec, countValidPatches_spec.
  destruct (Z.gtb_spec w t) as [Hgt|_]; [lia|].
  pose proof (Z.mul_div_le (t - w) s Hs).
  pose proof (Z.mul_succ_div_gt (t - w) s Hs). lia.
Qed.

(** One axis of [get_same_padding] once the loop has run. *)
Lemma same_zeros_closed_form (w s t : Z) (msg : string) :
  0 < s -> w <= t + s ->
  same_zeros (w + s * countValidPatches_spec w s t - s) s t msg
  = Ok (computeSamePadding_spec w s t)
  /\ 0 <= computeSamePadding_spec w s t.
Proof.
  intros Hs Hw.
  assert (Hfit : w + s * countValidPatches_spec w s t - s
                 = fittedExtent_spec w s t)
    by (unfold fittedExtent_spec; ring).
  rewrite Hfit. unfold same_zeros, computeSamePadding_spec.
  assert (Hbound : fittedExtent_spec w s t <= t
                   /\ t < fittedExtent_spec w s t + s).
  { destruct (Z_le_gt_dec w t) as [Hle|Hgt].
    - apply fittedExtent_le; assumption.
    - unfold fittedExtent_spec, countValidPatches_spec.
      destruct (Z.gtb_spec w t) as [_|Hle]; lia. }
  destruct (Z.eqb_spec (fittedExtent_spec w s t) t) as [Heq|Hne].
  - split; [reflexivity|lia].
  - destruct (Z.ltb_spec (fittedExtent_spec w s t) t) as [Hlt|Hge]; [|lia].
    split; [reflexivity|lia].
Qed.

Lemma same_zeros_asserts (w s t : Z) (msg : string) :
  t < w - s -> same_zeros (w - s) s t msg = Raise (AssertionError msg).
Proof.
  intros H. unfold same_zeros.
  destruct (Z.eqb_spec (w - s) t) as [Heq|_]; [lia|].
  destruct (Z.ltb_spec (w - s) t) as [Hlt|_]; [lia|reflexivity].
Qed.

(** ** PaddingCalculator *)

(** C1.  For positive window, stride and target on both axes, the two
    grow-until-exceeds loops of [get_valid_padding] exit (any fuel above
    the image dimension is enough) with exactly the closed-form counts:
    0 when the window exceeds the target and
    [floor((target - window) / stride) + 1] otherwise; and
    countValidPatches(10, 5, 25) = 4. *)
Theorem get_valid_padding_closed_form :
  (forall (fuel : nat) (wh sh ih ww sw iw : Z),
      0 < wh -> 0 < sh -> 0 < ih -> 0 < ww -> 0 < sw -> 0 < iw ->
      (Z.to_nat ih < fuel)%nat -> (Z.to_nat iw < fuel)%nat ->
      get_valid_padding fuel wh sh ih ww sw iw
      = Some (countValidPatches_spec wh sh ih,
              countValidPatches_spec ww sw iw))
  /\ get_valid_padding 5 10 5 25 10 5 25 = Some (4, 4).
Proof.
  split; [|reflexivity].
  intros fuel wh sh ih ww sw iw Hwh Hsh Hih Hww Hsw Hiw Hfh Hfw.
  unfold get_valid_padding.
  rewrite (grow_closed_form sh ih Hsh) by lia.
  rewrite (grow_closed_form sw iw Hsw) by lia.
  reflexivity.
Qed.

Lemma get_valid_padding_closed_form_witness :
  get_valid_padding 30 10 5 25 7 3 20
  = Some (countValidPatches_spec 10 5 25, countValidPatches_spec 7 3 20).
Proof.
  apply (proj1 get_valid_padding_closed_form); lia.
Defined.

(** C2, as the code has it.  Neither routine checks the stride.  With a
    stride <= 0 on an axis whose window fits the image, the counting loop
    of that axis never exits, whatever the fuel, in both routines.  When
    both windows exceed their image, [get_valid_padding] returns (0, 0)
    and, with a width stride <= 0, [get_same_padding] fails the assertion
    on the width. *)
Theorem nonpositive_stride_behaviour (wh sh ih ww sw iw : Z) :
  ((sh <= 0 /\ wh <= ih) \/ (sw <= 0 /\ ww <= iw) ->
   forall fuel : nat,
     get_valid_padding fuel wh sh ih ww sw iw = None
     /\ get_same_padding fuel wh sh ih ww sw iw = None)
  /\ (ih < wh -> iw < ww -> sw <= 0 ->
      forall fuel : nat,
        get_valid_padding (S fuel) wh sh ih ww sw iw = Some (0, 0)
        /\ get_same_padding (S fuel) wh sh ih ww sw iw
           = Some (Raise (AssertionError
                            "Slide window + stride is bigger than width"))).
Proof.
  split.
  - intros H fuel. split.
    + now apply get_valid_padding_diverges.
    + now apply get_same_padding_diverges.
  - intros Hh Hw Hs fuel.
    unfold get_valid_padding, get_same_padding.
    rewrite !grow_exits by assumption. split; [reflexivity|].
    rewrite same_zeros_asserts by lia. reflexivity.
Qed.

Lemma nonpositive_stride_behaviour_witness :
  (get_valid_padding 7 5 0 10 5 0 10 = None
   /\ get_same_padding 7 5 0 10 5 0 10 = None)
  /\ (get_valid_padding 1 10 0 5 10 0 5 = Some (0, 0)
      /\ get_same_padding 1 10 0 5 10 0 5
         = Some (Raise (AssertionError
                          "Slide window + stride is bigger than width"))).
Proof.
  split.
  - apply (proj1 (nonpositive_stride_behaviour 5 0 10 5 0 10)).
    left. lia.
  - apply (proj2 (nonpositive_stride_behaviour 10 0 5 10 0 5)); lia.
Defined.

(** C2 as stated fails at window 5, stride 0, target 10: neither routine
    ever comes back, with an error or otherwise. *)
Lemma zero_stride_never_returns :
  ~ (exists fuel r, get_valid_padding fuel 5 0 10 5 0 10 = Some r)
  /\ ~ (exists fuel r, get_same_padding fuel 5 0 10 5 0 10 = Some r).
Proof.
  split; intros (fuel & r & H).
  - rewrite get_valid_padding_diverges in H by (left; lia). discriminate.
  - rewrite get_same_padding_diverges in H by (left; lia). discriminate.
Qed.




(** ** RegionOfInterestAdjuster *)

Section MinMax.

Variables lo hi : Z.

Lemma fold_min_bounds (xs : list Z) :
  forall x,
    lo <= x <= hi -> Forall (fun y => lo <= y <= hi) xs ->
    lo <= fold_left Z.min xs x <= hi.
Proof.
  induction xs as [|y ys IH]; intros x Hx Hxs; cbn [fold_left];
    [assumption|].
  inversion Hxs; subst. apply IH; [lia|assumption].
Qed.

Lemma fold_max_bounds (xs : list Z) :
  forall x,
    lo <= x <= hi -> Forall (fun y => lo <= y <= hi) xs ->
    lo <= fold_left Z.max xs x <= hi.
Proof.
  induction xs as [|y ys IH]; intros x Hx Hxs; cbn [fold_left];
    [assumption|].
  inversion Hxs; subst. apply IH; [lia|assumption].
Qed.

End MinMax.

Lemma fold_min_le (xs : list Z) : forall x, fold_left Z.min xs x <= x.
Proof.
  induction xs as [|y ys IH]; intros x; cbn [fold_left]; [lia|].
  specialize (IH (Z.min x y)). lia.
Qed.

Lemma fold_max_ge (xs : list Z) : forall x, x <= fold_left Z.max xs x.
Proof.
  induction xs as [|y ys IH]; intros x; cbn [fold_left]; [lia|].
  specialize (IH (Z.max x y)). lia.
Qed.

(** The union box of a non-empty list of boxes inside the frame exists and
    lies inside the frame, minimum before maximum. *)
Lemma unionBox_inside (frameWidth frameHeight : Z) (boxes : list Box) :
  boxes <> [] ->
  Forall (inside_frame frameWidth frameHeight) boxes ->
  exists u,
    unionBox boxes = Ok u
    /\ py_min (x_coordinates boxes) = Ok (b0 u)
    /\ py_max (x_coordinates boxes) = Ok (b2 u)
    /\ py_min (y_coordinates boxes) = Ok (b1 u)
    /\ py_max (y_coordinates boxes) = Ok (b3 u)
    /\ 0 <= b0 u <= b2 u /\ b2 u <= frameWidth
    /\ 0 <= b1 u <= b3 u /\ b3 u <= frameHeight.
Proof.
  intros Hne Hall.
  destruct boxes as [|b bs]; [congruence|].
  inversion Hall as [|? ? [[Hb0 Hb2] [Hb1 Hb3]] Hbs]; subst.
  assert (Hx : Forall (fun y => 0 <= y <= frameWidth)
                 (b2 b :: x_coordinates bs)).
  { constructor; [assumption|].
    unfold x_coordinates. apply Forall_flat_map.
    eapply Forall_impl; [|exact Hbs].
    intros c [[? ?] _]. constructor; [assumption|constructor; [assumption|constructor]]. }
  assert (Hy : Forall (fun y => 0 <= y <= frameHeight)
                 (b3 b :: y_coordinates bs)).
  { constructor; [assumption|].
    unfold y_coordinates. apply Forall_flat_map.
    eapply Forall_impl; [|exact Hbs].
    intros c [_ [? ?]]. constructor; [assumption|constructor; [assumption|constructor]]. }
  unfold unionBox. cbn [x_coordinates y_coordinates flat_map app].
  fold (x_coordinates bs). fold (y_coordinates bs).
  cbn [py_min py_max bind].
  eexists. split; [reflexivity|]. cbn [b0 b1 b2 b3].
  pose proof (fold_min_bounds 0 frameWidth _ (b0 b) Hb0 Hx).
  pose proof (fold_max_bounds 0 frameWidth _ (b0 b) Hb0 Hx).
  pose proof (fold_min_bounds 0 frameHeight _ (b1 b) Hb1 Hy).
  pose proof (fold_max_bounds 0 frameHeight _ (b1 b) Hb1 Hy).
  pose proof (fold_min_le (b2 b :: x_coordinates bs) (b0 b)).
  pose proof (fold_max_ge (b2 b :: x_coordinates bs) (b0 b)).
  pose proof (fold_min_le (b3 b :: y_coordinates bs) (b1 b)).
  pose proof (fold_max_ge (b3 b :: y_coordinates bs) (b1 b)).
  repeat split; try reflexivity; lia.
Qed.

Lemma axis_offset_pos (Roi axisOffset : Z) : 1 <= axis_offset Roi axisOffset.
Proof.
  unfold axis_offset.
  destruct (Z.geb_spec Roi axisOffset); lia.
Qed.

Ltac branches :=
  repeat match goal with
    | |- context [?a <? ?b] => destruct (Z.ltb_spec a b)
    | |- context [?a =? ?b] => destruct (Z.eqb_spec a b)
    | |- context [?a >? ?b] => destruct (Z.gtb_spec a b)
    | |- context [?a >=? ?b] => destruct (Z.geb_spec a b)
    | |- context [?a <=? ?b] => destruct (Z.leb_spec a b)
    end.

Lemma space_on_x_bounds (xmin xmax offsetXLeft offsetXRight frameWidth : Z) :
  0 <= xmin <= xmax -> xmax <= frameWidth ->
  0 <= offsetXLeft -> 0 <= offsetXRight ->
  0 <= fst (space_on_x xmin xmax offsetXLeft offsetXRight frameWidth) <= xmin
  /\ xmax <= snd (space_on_x xmin xmax offsetXLeft offsetXRight frameWidth)
          <= frameWidth.
Proof.
  intros Hx Hf HL HR. unfold space_on_x.
  branches; cbn [fst snd]; lia.
Qed.

Lemma space_on_y_bounds (ymin ymax offsetYTop offsetYBottom frameHeight : Z) :
  0 <= ymin <= ymax -> ymax <= frameHeight ->
  0 <= offsetYBottom <= offsetYTop -> offsetYTop <= offsetYBottom + 1 ->
  0 <= fst (space_on_y ymin ymax offsetYTop offsetYBottom frameHeight) <= ymin
  /\ ymax <= snd (space_on_y ymin ymax offsetYTop offsetYBottom frameHeight)
          <= frameHeight.
Proof.
  intros Hy Hf HB HT. unfold space_on_y.
  branches; cbn [fst snd]; lia.
Qed.

Lemma space_on_x_unclamped (xmin xmax offsetXLeft offsetXRight frameWidth : Z) :
  0 <= xmin - offsetXLeft -> xmax + offsetXRight <= frameWidth ->
  space_on_x xmin xmax offsetXLeft offsetXRight frameWidth
  = (xmin - offsetXLeft, xmax + offsetXRight).
Proof.
  intros Hl Hr. unfold space_on_x.
  branches; f_equal; lia.
Qed.

(** On the y axis the upper side follows the request; the lower side does
    so when the request ends on the frame edge or both sides are equal. *)
Lemma space_on_y_unclamped (ymin ymax offsetYTop offsetYBottom frameHeight : Z) :
  0 <= ymin - offsetYTop -> ymax + offsetYBottom <= frameHeight ->
  fst (space_on_y ymin ymax offsetYTop offsetYBottom frameHeight)
  = ymin - offsetYTop
  /\ (ymax + offsetYBottom = frameHeight \/ offsetYTop = offsetYBottom ->
      snd (space_on_y ymin ymax offsetYTop offsetYBottom frameHeight)
      = ymax + offsetYBottom).
Proof.
  intros Hl Hr. unfold space_on_y.
  branches; cbn [fst snd]; (split; [lia|intros [?|?]; lia]).
Qed.

Lemma adjustImage_unfold (frameHeight frameWidth w h : Z)
  (boxes : list Box) (u : Box) :
  py_min (x_coordinates boxes) = Ok (b0 u) ->
  py_max (x_coordinates boxes) = Ok (b2 u) ->
  py_min (y_coordinates boxes) = Ok (b1 u) ->
  py_max (y_coordinates boxes) = Ok (b3 u) ->
  adjustImage (Some frameHeight) (Some frameWidth) (Some boxes) (Some [w; h])
  = let offsetX := axis_offset (b2 u - b0 u)
                     (fst (effective_offset frameHeight frameWidth w h)) in
    let offsetY := axis_offset (b3 u - b1 u)
                     (snd (effective_offset frameHeight frameWidth w h)) in
    let X := space_on_x (b0 u) (b2 u) (offsetX / 2) (offsetX - offsetX / 2)
               frameWidth in
    let Y := space_on_y (b1 u) (b3 u) (offsetY - offsetY / 2)
               (offsetY - (offsetY - offsetY / 2)) frameHeight in
    Ok (mkBox (fst X) (fst Y) (snd X) (snd Y)).
Proof.
  intros Hx0 Hx1 Hy0 Hy1. unfold adjustImage.
  destruct (effective_offset frameHeight frameWidth w h) as [wo ho].
  rewrite Hx0, Hx1, Hy0, Hy1. cbn [bind fst snd].
  destruct (space_on_x _ _ _ _ _) as [? ?].
  destruct (space_on_y _ _ _ _ _) as [? ?]. reflexivity.
Qed.

Lemma halves (offset : Z) :
  1 <= offset ->
  0 <= offset / 2 <= offset - offset / 2
  /\ offset - offset / 2 <= offset / 2 + 1.
Proof.
  intros H.
  pose proof (Z.div_mod offset 2 ltac:(lia)).
  pose proof (Z.mod_pos_bound offset 2 ltac:(lia)). lia.
Qed.

(** C4.  For a non-empty list of boxes inside the frame and non-negative
    margins, [adjustImage] returns a crop rectangle with
    [0 <= minX <= unionXmin], [unionXmax <= maxX <= frameWidth] and the
    same on y: the crop lies in the frame and encloses the union box. *)
Theorem adjustImage_in_frame_encloses_union
  (frameHeight frameWidth marginWidth marginHeight : Z) (boxes : list Box) :
  boxes <> [] ->
  Forall (inside_frame frameWidth frameHeight) boxes ->
  0 <= marginWidth -> 0 <= marginHeight ->
  exists crop union,
    adjustImage (Some frameHeight) (Some frameWidth) (Some boxes)
      (Some [marginWidth; marginHeight]) = Ok crop
    /\ unionBox boxes = Ok union
    /\ 0 <= b0 crop <= b0 union /\ b2 union <= b2 crop <= frameWidth
    /\ 0 <= b1 crop <= b1 union /\ b3 union <= b3 crop <= frameHeight.
Proof.
  intros Hne Hall _ _.
  destruct (unionBox_inside frameWidth frameHeight boxes Hne Hall)
    as (u & Hu & Hx0 & Hx1 & Hy0 & Hy1 & Hxs & Hxf & Hys & Hyf).
  eexists. exists u.
  rewrite (adjustImage_unfold _ _ _ _ _ u Hx0 Hx1 Hy0 Hy1).
  cbv zeta. split; [reflexivity|]. split; [assumption|].
  cbn [b0 b1 b2 b3].
  set (ox := axis_offset (b2 u - b0 u) _).
  set (oy := axis_offset (b3 u - b1 u) _).
  pose proof (halves ox (axis_offset_pos _ _)) as [Hox1 Hox2].
  pose proof (halves oy (axis_offset_pos _ _)) as [Hoy1 Hoy2].
  pose proof (space_on_x_bounds (b0 u) (b2 u) (ox / 2) (ox - ox / 2)
                frameWidth Hxs Hxf ltac:(lia) ltac:(lia)).
  pose proof (space_on_y_bounds (b1 u) (b3 u) (oy - oy / 2)
                (oy - (oy - oy / 2)) frameHeight Hys Hyf
                ltac:(lia) ltac:(lia)).
  lia.
Qed.

Lemma adjustImage_in_frame_encloses_union_witness :
  exists crop union,
    adjustImage (Some 100) (Some 100)
      (Some [mkBox 10 10 20 20; mkBox 30 30 40 40]) (Some [5; 5]) = Ok crop
    /\ unionBox [mkBox 10 10 20 20; mkBox 30 30 40 40] = Ok union
    /\ 0 <= b0 crop <= b0 union /\ b2 union <= b2 crop <= 100
    /\ 0 <= b1 crop <= b1 union /\ b3 union <= b3 crop <= 100.
Proof.
  apply (adjustImage_in_frame_encloses_union 100 100 5 5).
  - discriminate.
  - repeat constructor; cbn; lia.
  - lia.
  - lia.
Defined.

(** C5, as the code has it.  With the margins taken after the oversized
    margin fallback, the space added on an axis is [margin - roi] when
    [roi < margin] and 10 otherwise.  It is split with
    [leading = extra // 2], [trailing = extra - leading] on the width axis
    and [trailing = extra // 2], [leading = extra - trailing] on the height
    axis.  Whenever [unionMin - leading >= 0] and
    [unionMax + trailing <= frameDim], the crop on the width axis is
    exactly [(unionMin - leading, unionMax + trailing)]; on the height
    axis its minimum is [unionMin - leading], and its maximum is
    [unionMax + trailing] when that is the frame height or when the two
    sides are equal. *)
Theorem adjustImage_unclamped
  (frameHeight frameWidth marginWidth marginHeight : Z) (boxes : list Box)
  (union : Box) :
  unionBox boxes = Ok union ->
  let margins :=
    effective_offset frameHeight frameWidth marginWidth marginHeight in
  let roiX := b2 union - b0 union in
  let roiY := b3 union - b1 union in
  let extraX := if roiX <? fst margins then fst margins - roiX else 10 in
  let extraY := if roiY <? snd margins then snd margins - roiY else 10 in
  let leadingX := extraX / 2 in
  let trailingX := extraX - leadingX in
  let trailingY := extraY / 2 in
  let leadingY := extraY - trailingY in
  exists crop,
    adjustImage (Some frameHeight) (Some frameWidth) (Some boxes)
      (Some [marginWidth; marginHeight]) = Ok crop
    /\ (0 <= b0 union - leadingX -> b2 union + trailingX <= frameWidth ->
        b0 crop = b0 union - leadingX /\ b2 crop = b2 union + trailingX)
    /\ (0 <= b1 union - leadingY -> b3 union + trailingY <= frameHeight ->
        b1 crop = b1 union - leadingY
        /\ (b3 union + trailingY = frameHeight \/ leadingY = trailingY ->
            b3 crop = b3 union + trailingY)).
Proof.
  intros Hu. unfold unionBox in Hu.
  destruct (py_min (x_coordinates boxes)) as [x0|] eqn:Hx0; [|discriminate].
  destruct (py_max (x_coordinates boxes)) as [x1|] eqn:Hx1; [|discriminate].
  destruct (py_min (y_coordinates boxes)) as [y0|] eqn:Hy0; [|discriminate].
  destruct (py_max (y_coordinates boxes)) as [y1|] eqn:Hy1; [|discriminate].
  cbn [bind] in Hu. injection Hu as <-. cbn [b0 b1 b2 b3].
  cbv zeta. eexists.
  rewrite (adjustImage_unfold _ _ _ _ _ (mkBox x0 y0 x1 y1) Hx0 Hx1 Hy0 Hy1).
  cbv zeta. cbn [b0 b1 b2 b3]. split; [reflexivity|]. cbn [b0 b1 b2 b3].
  set (wo := fst (effective_offset _ _ _ _)).
  set (ho := snd (effective_offset _ _ _ _)).
  assert (Hex : axis_offset (x1 - x0) wo
                = if x1 - x0 <? wo then wo - (x1 - x0) else 10).
  { unfold axis_offset. branches; lia. }
  assert (Hey : axis_offset (y1 - y0) ho
                = if y1 - y0 <? ho then ho - (y1 - y0) else 10).
  { unfold axis_offset. branches; lia. }
  rewrite <- Hex, <- Hey.
  set (ox := axis_offset (x1 - x0) wo).
  set (oy := axis_offset (y1 - y0) ho).
  replace (oy - (oy - oy / 2)) with (oy / 2) by ring.
  split.
  - intros Hl Hr. rewrite space_on_x_unclamped by assumption.
    split; reflexivity.
  - intros Hl Hr.
    exact (space_on_y_unclamped y0 y1 (oy - oy / 2) (oy / 2) frameHeight
             Hl Hr).
Qed.

Lemma adjustImage_unclamped_witness :
  exists crop,
    adjustImage (Some 100) (Some 100) (Some [mkBox 20 20 30 30])
      (Some [15; 15]) = Ok crop
    /\ (b0 crop = 18 /\ b2 crop = 33)
    /\ b1 crop = 17.
Proof.
  destruct (adjustImage_unclamped 100 100 15 15 [mkBox 20 20 30 30]
              (mkBox 20 20 30 30) eq_refl) as (crop & Hc & Hx & Hy).
  exists crop. split; [exact Hc|]. split.
  - apply Hx; vm_compute; discriminate.
  - apply Hy; vm_compute; discriminate.
Defined.

(** C5 as stated fails for the box (20, 20, 30, 30) in a 100 x 100 frame
    with margins (15, 15): [max(10, 15 - 10) = 10] would put the crop at
    x = 15 .. 35, the code adds 15 - 10 = 5 and returns x = 18 .. 33. *)
Lemma adjustImage_extra_below_ten :
  adjustImage (Some 100) (Some 100) (Some [mkBox 20 20 30 30])
    (Some [15; 15]) = Ok (mkBox 18 17 33 33)
  /\ let extra := Z.max 10 (15 - (30 - 20)) in
     let leading := extra / 2 in
     let trailing := extra - leading in
     0 <= 20 - leading /\ 30 + trailing <= 100
     /\ (18, 33) <> (20 - leading, 30 + trailing).
Proof.
  split; [reflexivity|]. cbv zeta. vm_compute.
  repeat split; discriminate.
Qed.

(** Line 216 sets [RoiYMax = ymax + offsetYTop] where the x axis (line
    166) sets [RoiXMax = xmax + offsetXRight].  With an odd amount of
    space, here 21 - 10 = 11 split 6 above and 5 below, the crop ends at
    y = 30 + 6 = 36, one pixel past [ymax + offsetYBottom] = 35. *)
Lemma adjustImage_height_trailing_side :
  adjustImage (Some 100) (Some 100) (Some [mkBox 20 20 30 30])
    (Some [21; 21]) = Ok (mkBox 15 14 36 36).
Proof. reflexivity. Qed.

(** ** BoundingBoxClipper *)

(** One iteration keeps the box exactly when it is contained, as its
    translation; the "negative" exception behind the test cannot fire. *)
Lemma include_box_spec (edges b : Box) :
  include_box edges b
  = Ok (if contained edges b then Some (translate edges b) else None).
Proof.
  unfold include_box, contained, translate.
  destruct (Z.geb_spec (b0 b) (b0 edges)) as [Hx|Hx];
    destruct (Z.leb_spec (b2 b) (b2 edges)) as [Hx'|Hx'];
    destruct (Z.geb_spec (b1 b) (b1 edges)) as [Hy|Hy];
    destruct (Z.leb_spec (b3 b) (b3 edges)) as [Hy'|Hy'];
    cbn [andb]; try reflexivity.
  destruct (Z.ltb_spec (b0 b - b0 edges) 0) as [Hn|_]; [lia|].
  destruct (Z.ltb_spec (b1 b - b1 edges) 0) as [Hn|_]; [lia|].
  reflexivity.
Qed.

Lemma include_loop_spec (edges : Box) (boxes : list Box) :
  forall (names : list string) (accB : list Box) (accN : list string),
    List.length names = List.length boxes ->
    include_loop edges boxes names accB accN
    = Ok (accB ++ map fst (clip_spec edges (combine boxes names)),
          accN ++ map snd (clip_spec edges (combine boxes names))).
Proof.
  induction boxes as [|b bs IH]; intros names accB accN Hlen.
  - cbn. now rewrite !app_nil_r.
  - destruct names as [|name names']; [discriminate|].
    injection Hlen as Hlen.
    cbn [include_loop]. rewrite include_box_spec. cbn [bind].
    unfold clip_spec. cbn [combine filter fst snd].
    destruct (contained edges b); rewrite IH by assumption.
    + cbn [map fst snd]. unfold clip_spec.
      now rewrite <- !app_assoc.
    + reflexivity.
Qed.

(** [clip] is the filter-and-translate of the specification: exactly the
    contained boxes are kept, in input order, each with its own label. *)
Lemma includeBoundingBoxes_filter_translate (edges : Box)
  (boxes : list Box) (names : list string) :
  List.length names = List.length boxes ->
  includeBoundingBoxes (Some edges) (Some boxes) (Some names)
  = Ok (map fst (clip_spec edges (combine boxes names)),
        map snd (clip_spec edges (combine boxes names))).
Proof.
  intros Hlen. unfold includeBoundingBoxes.
  now rewrite include_loop_spec.
Qed.

(** For a box of positive width and height, no translated coordinate is
    negative or reaches the local extent of the crop. *)
Lemma translate_inside (crop b : Box) :
  contained crop b = true ->
  b0 b < b2 b -> b1 b < b3 b ->
  let t := translate crop b in
  (0 <= b0 t < b2 crop - b0 crop /\ 0 <= b2 t < b2 crop - b0 crop)
  /\ (0 <= b1 t < b3 crop - b1 crop /\ 0 <= b3 t < b3 crop - b1 crop).
Proof.
  unfold contained, translate. intros Hc Hx Hy.
  apply andb_prop in Hc as [Hc Hc4]. apply andb_prop in Hc as [Hc Hc3].
  apply andb_prop in Hc as [Hc1 Hc2].
  apply Z.geb_le in Hc1, Hc3. apply Z.leb_le in Hc2, Hc4.
  cbn [b0 b1 b2 b3].
  destruct (Z.eqb_spec (b2 b - b0 crop) (b2 crop - b0 crop));
    destruct (Z.eqb_spec (b3 b - b1 crop) (b3 crop - b1 crop)); lia.
Qed.

Lemma includeBoundingBoxes_positive_extent (edges : Box)
  (boxes : list Box) (names : list string) :
  List.length names = List.length boxes ->
  Forall (fun b => b0 b < b2 b /\ b1 b < b3 b) boxes ->
  exists newBoxes newNames,
    includeBoundingBoxes (Some edges) (Some boxes) (Some names)
    = Ok (newBoxes, newNames)
    /\ Forall (fun t =>
         (0 <= b0 t < b2 edges - b0 edges /\ 0 <= b2 t < b2 edges - b0 edges)
         /\ (0 <= b1 t < b3 edges - b1 edges
             /\ 0 <= b3 t < b3 edges - b1 edges)) newBoxes.
Proof.
  intros Hlen Hpos. do 2 eexists.
  split; [now apply includeBoundingBoxes_filter_translate|].
  unfold clip_spec. rewrite map_map. cbn [fst].
  apply Forall_forall. intros t Ht.
  apply in_map_iff in Ht as ([b name] & <- & Hin).
  apply filter_In in Hin as [Hin Hc]. cbn [fst] in *.
  apply in_combine_l in Hin.
  rewrite Forall_forall in Hpos. destruct (Hpos b Hin) as [Hx Hy].
  exact (translate_inside edges b Hc Hx Hy).
Qed.

(** C6 at the box (10, 2, 10, 5), kept in the crop (0, 0, 10, 10): the
    returned box is (10, 2, 9, 5).  Its first coordinate is the width of
    the crop, and lies beyond its own third coordinate.  In the empty crop
    (5, 5, 5, 5) the box (5, 5, 5, 5) comes back as (0, 0, -1, -1). *)
Theorem includeBoundingBoxes_box_on_far_edge :
  includeBoundingBoxes (Some (mkBox 0 0 10 10)) (Some [mkBox 10 2 10 5])
    (Some ["a"%string])
  = Ok ([mkBox 10 2 9 5], ["a"%string])
  /\ includeBoundingBoxes (Some (mkBox 5 5 5 5)) (Some [mkBox 5 5 5 5])
       (Some ["a"%string])
     = Ok ([mkBox 0 0 (-1) (-1)], ["a"%string]).
Proof. split; reflexivity. Qed.

(** ** PatchGridPlanner *)

(** *** The nested loops against the row-major enumeration *)

Lemma map_seq_succ {A : Type} (f : nat -> A) (n : nat) :
  map f (seq 0 (S n)) = f O :: map (fun k => f (S k)) (seq 0 n).
Proof.
  cbn [seq map]. f_equal. rewrite <- seq_shift, map_map. reflexivity.
Qed.

Lemma flat_map_seq_succ {A : Type} (f : nat -> list A) (n : nat) :
  flat_map f (seq 0 (S n)) = f O ++ flat_map (fun k => f (S k)) (seq 0 n).
Proof.
  cbn [seq flat_map]. f_equal.
  rewrite <- seq_shift, flat_map_concat_map, map_map,
    <- flat_map_concat_map. reflexivity.
Qed.

(** The inner loop: one row of patches, left to right. *)
Lemma columns_loop (strideWidth : Z) (n : nat) :
  forall c : cursor,
    iterate n (column_body strideWidth) c
    = mkCursor (startPixelsWidth c + Z.of_nat n * strideWidth)
               (endPixelsWidth c + Z.of_nat n * strideWidth)
               (startPixelsHeight c) (endPixelsHeight c)
               (patchesCoordinates c
                  ++ map (fun j =>
                       mkBox (startPixelsWidth c + Z.of_nat j * strideWidth)
                             (startPixelsHeight c)
                             (endPixelsWidth c + Z.of_nat j * strideWidth)
                             (endPixelsHeight c))
                     (seq 0 n)).
Proof.
  induction n as [|n IH]; intros c.
  - destruct c. cbn. rewrite app_nil_r. f_equal; ring.
  - cbn [iterate]. rewrite IH. cbn [column_body startPixelsWidth
      endPixelsWidth startPixelsHeight endPixelsHeight patchesCoordinates].
    rewrite map_seq_succ, <- app_assoc. cbn [app].
    f_equal; try lia.
    f_equal. f_equal; [f_equal; ring|].
    apply map_ext. intros j. f_equal; lia.
Qed.

(** The outer loop, started with the width variables at their reset
    values: row after row. *)
Lemma rows_loop (numberPatchesWidth windowWidth strideWidth strideHeight : Z)
  (m : nat) :
  forall (h0 h1 : Z) (acc : list Box),
    patchesCoordinates
      (iterate m
         (row_body numberPatchesWidth strideWidth strideHeight windowWidth)
         (mkCursor 0 windowWidth h0 h1 acc))
    = acc ++ flat_map (fun i =>
               map (fun j =>
                 mkBox (Z.of_nat j * strideWidth)
                       (h0 + Z.of_nat i * strideHeight)
                       (Z.of_nat j * strideWidth + windowWidth)
                       (h1 + Z.of_nat i * strideHeight))
                 (seq 0 (Z.to_nat numberPatchesWidth)))
             (seq 0 m).
Proof.
  induction m as [|m IH]; intros h0 h1 acc.
  - cbn. now rewrite app_nil_r.
  - cbn [iterate]. unfold row_body at 2, for_range.
    rewrite columns_loop. cbn [startPixelsWidth endPixelsWidth
      startPixelsHeight endPixelsHeight patchesCoordinates].
    rewrite IH, flat_map_seq_succ, <- !app_assoc. f_equal. f_equal.
    + apply map_ext. intros j. f_equal; ring.
    + apply flat_map_ext. intros i. apply map_ext. intros j.
      f_equal; lia.
Qed.

Lemma enumerate_patches_row_major
  (numberPatchesHeight numberPatchesWidth windowWidth windowHeight
   strideWidth strideHeight : Z) :
  enumerate_patches numberPatchesHeight numberPatchesWidth windowWidth
    windowHeight strideWidth strideHeight windowWidth
  = row_major (Z.to_nat numberPatchesHeight) (Z.to_nat numberPatchesWidth)
      windowWidth windowHeight strideWidth strideHeight.
Proof.
  unfold enumerate_patches, for_range, row_major, patch_at.
  rewrite rows_loop. cbn [app].
  apply flat_map_ext. intros i. apply map_ext. intros j. f_equal; ring.
Qed.

Lemma row_major_length (r c : nat) (ww wh sw sh : Z) :
  List.length (row_major r c ww wh sw sh) = (r * c)%nat.
Proof.
  unfold row_major. induction r as [|r IH].
  - reflexivity.
  - rewrite seq_S, flat_map_app, length_app, IH. cbn [flat_map].
    rewrite app_nil_r, length_map, length_seq. lia.
Qed.

Lemma row_major_nth (r c : nat) (ww wh sw sh : Z) (i j : nat) :
  (i < r)%nat -> (j < c)%nat ->
  nth_error (row_major r c ww wh sw sh) (i * c + j)
  = Some (patch_at ww wh sw sh (Z.of_nat i) (Z.of_nat j)).
Proof.
  unfold row_major. revert i. induction r as [|r IH]; intros i Hi Hj; [lia|].
  rewrite seq_S, flat_map_app. cbn [flat_map Nat.add]. rewrite app_nil_r.
  fold (row_major r c ww wh sw sh).
  destruct (Nat.eq_dec i r) as [->|Hne].
  - rewrite nth_error_app2; rewrite row_major_length; [|lia].
    replace (r * c + j - r * c)%nat with j by lia.
    rewrite nth_error_map, nth_error_nth' with (d := O)
      by (rewrite length_seq; lia).
    rewrite seq_nth by lia. reflexivity.
  - rewrite nth_error_app1 by (rewrite row_major_length; nia).
    apply IH; lia.
Qed.

(** *** VALID *)

(** C8.  For the VALID policy with positive strides (after the
    normalisation) and enough fuel for the two counting loops, [plan]
    returns the per-axis counts of countValidPatches and the patches in
    row-major order from (0, 0): the patch of row [i], column [j] is
    [(j*strideWidth, i*strideHeight, j*strideWidth + windowWidth,
    i*strideHeight + windowHeight)], and there are
    [rowCount * colCount] of them. *)
Theorem divideIntoPatches_valid_row_major (fuel : nat)
  (imageWidth imageHeight : Z) (slideWindowSize strideSize : Z * Z)
  (numberPatches : option (Z * Z)) :
  let windowWidth := clamp_to_image (fst slideWindowSize) imageWidth in
  let windowHeight := clamp_to_image (snd slideWindowSize) imageHeight in
  let strideWidth := clamp_to_image (fst strideSize) imageWidth in
  let strideHeight := clamp_to_image (snd strideSize) imageHeight in
  0 < strideWidth -> 0 < strideHeight ->
  (Z.to_nat (imageWidth - windowWidth + 1) < fuel)%nat ->
  (Z.to_nat (imageHeight - windowHeight + 1) < fuel)%nat ->
  exists (coordinates : list Box) (rowCount colCount : Z),
    divideIntoPatches fuel (Some imageWidth) (Some imageHeight)
      (Some slideWindowSize) (Some strideSize) (Some "VALID"%string)
      numberPatches
    = Some (Ok (Patches3 coordinates rowCount colCount))
    /\ rowCount = countValidPatches_spec windowHeight strideHeight imageHeight
    /\ colCount = countValidPatches_spec windowWidth strideWidth imageWidth
    /\ get_valid_padding fuel windowHeight strideHeight imageHeight
         windowWidth strideWidth imageWidth = Some (rowCount, colCount)
    /\ coordinates
       = row_major (Z.to_nat rowCount) (Z.to_nat colCount)
           windowWidth windowHeight strideWidth strideHeight
    /\ Z.of_nat (List.length coordinates) = rowCount * colCount
    /\ forall i j : Z,
         0 <= i < rowCount -> 0 <= j < colCount ->
         nth_error coordinates (Z.to_nat (i * colCount + j))
         = Some (patch_at windowWidth windowHeight strideWidth strideHeight
                   i j).
Proof.
  intros ww wh sw sh Hsw Hsh Hfw Hfh.
  assert (Hcount : get_valid_padding fuel wh sh imageHeight ww sw imageWidth
                   = Some (countValidPatches_spec wh sh imageHeight,
                           countValidPatches_spec ww sw imageWidth)).
  { unfold get_valid_padding.
    rewrite (grow_closed_form sh imageHeight Hsh) by assumption.
    rewrite (grow_closed_form sw imageWidth Hsw) by assumption.
    reflexivity. }
  pose proof (count_nonneg sh imageHeight Hsh wh) as Hr.
  pose proof (count_nonneg sw imageWidth Hsw ww) as Hc.
  set (rows := countValidPatches_spec wh sh imageHeight) in *.
  set (cols := countValidPatches_spec ww sw imageWidth) in *.
  exists (row_major (Z.to_nat rows) (Z.to_nat cols) ww wh sw sh), rows, cols.
  split.
  { unfold divideIntoPatches. cbn [or_default String.eqb].
    fold ww wh sw sh. rewrite Hcount.
    rewrite enumerate_patches_row_major. reflexivity. }
  repeat split; try reflexivity; try assumption.
  - rewrite row_major_length. lia.
  - intros i j Hi Hj.
    replace (Z.to_nat (i * cols + j))
      with (Z.to_nat i * Z.to_nat cols + Z.to_nat j)%nat by nia.
    rewrite row_major_nth by lia.
    rewrite !Z2Nat.id by lia. reflexivity.
Qed.

(** The strides must be positive for any of this: after the normalisation
    the window never exceeds the image, so a stride <= 0 keeps the
    counting loop running for ever. *)
Lemma divideIntoPatches_valid_needs_positive_strides (fuel : nat)
  (imageWidth imageHeight : Z) (slideWindowSize strideSize : Z * Z)
  (numberPatches : option (Z * Z)) :
  clamp_to_image (fst strideSize) imageWidth <= 0
  \/ clamp_to_image (snd strideSize) imageHeight <= 0 ->
  divideIntoPatches fuel (Some imageWidth) (Some imageHeight)
    (Some slideWindowSize) (Some strideSize) (Some "VALID"%string)
    numberPatches = None.
Proof.
  intros Hs. unfold divideIntoPatches. cbn [or_default String.eqb].
  rewrite get_valid_padding_diverges; [reflexivity|].
  assert (Hw : forall d i, clamp_to_image d i <= i).
  { intros d i. unfold clamp_to_image. destruct (Z.gtb_spec d i); lia. }
  destruct Hs as [Hs|Hs]; [right|left]; (split; [exact Hs|apply Hw]).
Qed.

Lemma divideIntoPatches_valid_row_major_witness :
  exists (coordinates : list Box) (rowCount colCount : Z),
    divideIntoPatches 30 (Some 25) (Some 12) (Some (10, 5)) (Some (5, 4))
      (Some "VALID"%string) None
    = Some (Ok (Patches3 coordinates rowCount colCount))
    /\ rowCount = countValidPatches_spec 5 4 12
    /\ colCount = countValidPatches_spec 10 5 25
    /\ get_valid_padding 30 5 4 12 10 5 25 = Some (rowCount, colCount)
    /\ coordinates
       = row_major (Z.to_nat rowCount) (Z.to_nat colCount) 10 5 5 4
    /\ Z.of_nat (List.length coordinates) = rowCount * colCount
    /\ forall i j : Z,
         0 <= i < rowCount -> 0 <= j < colCount ->
         nth_error coordinates (Z.to_nat (i * colCount + j))
         = Some (patch_at 10 5 5 4 i j).
Proof.
  apply (divideIntoPatches_valid_row_major 30 25 12 (10, 5) (5, 4) None);
    vm_compute; solve [reflexivity | lia].
Defined.

(** *** VALID_FIT_ALL *)




(** C7 on a 10 x 10 frame with 4 x 4 tiles asked for: stride and window
    are floor(10 / 4) = 2 on both axes, 5 windows of 2 fit in 10, and the
    call returns 5 * 5 = 25 patches where 4 * 4 = 16 were asked for. *)
Theorem divideIntoPatches_fit_all_too_many :
  exists coordinates : list Box,
    divideIntoPatches 11 (Some 10) (Some 10) None None
      (Some "VALID_FIT_ALL"%string) (Some (4, 4))
    = Some (Ok (Patches3 coordinates 5 5))
    /\ List.length coordinates = 25%nat
    /\ List.length coordinates <> (4 * 4)%nat.
Proof.
  eexists. split; [vm_compute; reflexivity|].
  split; [reflexivity|discriminate].
Qed.

(** *** The normalisation of oversized windows and strides *)

Lemma clamp_to_image_le (dim image : Z) : clamp_to_image dim image <= image.
Proof.
  unfold clamp_to_image. destruct (Z.gtb_spec dim image); lia.
Qed.

Lemma clamp_to_image_oversized (dim image : Z) :
  image < dim -> clamp_to_image dim image = image - 1.
Proof.
  unfold clamp_to_image. destruct (Z.gtb_spec dim image); lia.
Qed.

Lemma count_fitting_window (w s t : Z) :
  0 < s -> w <= t -> 1 <= countValidPatches_spec w s t.
Proof.
  intros Hs Hw. unfold countValidPatches_spec.
  destruct (Z.gtb_spec w t) as [Hgt|_]; [lia|].
  assert (0 <= (t - w) / s) by (apply Z.div_pos; lia). lia.
Qed.

Lemma computeSamePadding_bounds (w s t : Z) :
  0 < s -> w <= t -> 0 <= computeSamePadding_spec w s t < s.
Proof.
  intros Hs Hw. unfold computeSamePadding_spec.
  pose proof (fittedExtent_le w s t Hs Hw).
  destruct (Z.eqb_spec (fittedExtent_spec w s t) t); lia.
Qed.

Lemma row_major_head (r c : nat) (ww wh sw sh : Z) :
  (0 < r)%nat -> (0 < c)%nat ->
  hd_error (row_major r c ww wh sw sh) = Some (mkBox 0 0 ww wh).
Proof.
  intros Hr Hc.
  pose proof (row_major_nth r c ww wh sw sh 0 0 Hr Hc) as H.
  cbn [Nat.mul Nat.add] in H.
  destruct (row_major r c ww wh sw sh); [discriminate|].
  cbn in H. injection H as ->.
  unfold patch_at. cbn [hd_error Z.of_nat].
  rewrite !Z.mul_0_l, !Z.add_0_l. reflexivity.
Qed.

(** C10, as the code has it.  A window or stride dimension above the frame
    dimension is replaced by [frameDim - 1]; nothing keeps that at 1 or
    above.  Whenever the strides are positive after the replacement, the
    VALID and SAME policies return at least one row and one column of
    patches, and the first patch is (0, 0) to the window after the
    replacement: to [frameDim - 1] on an axis whose window was
    oversized. *)
Theorem divideIntoPatches_oversized_window (fuel : nat)
  (imageWidth imageHeight : Z) (slideWindowSize strideSize : Z * Z)
  (numberPatches : option (Z * Z)) :
  let windowWidth := clamp_to_image (fst slideWindowSize) imageWidth in
  let windowHeight := clamp_to_image (snd slideWindowSize) imageHeight in
  let strideWidth := clamp_to_image (fst strideSize) imageWidth in
  let strideHeight := clamp_to_image (snd strideSize) imageHeight in
  0 < strideWidth -> 0 < strideHeight ->
  (Z.to_nat (imageWidth + strideWidth - windowWidth + 1) < fuel)%nat ->
  (Z.to_nat (imageHeight + strideHeight - windowHeight + 1) < fuel)%nat ->
  (imageWidth < fst slideWindowSize -> windowWidth = imageWidth - 1)
  /\ (imageHeight < snd slideWindowSize -> windowHeight = imageHeight - 1)
  /\ (imageWidth < fst strideSize -> strideWidth = imageWidth - 1)
  /\ (imageHeight < snd strideSize -> strideHeight = imageHeight - 1)
  /\ (exists coordinates rowCount colCount,
        divideIntoPatches fuel (Some imageWidth) (Some imageHeight)
          (Some slideWindowSize) (Some strideSize) (Some "VALID"%string)
          numberPatches
        = Some (Ok (Patches3 coordinates rowCount colCount))
        /\ 1 <= rowCount /\ 1 <= colCount
        /\ Z.of_nat (List.length coordinates) = rowCount * colCount
        /\ hd_error coordinates = Some (mkBox 0 0 windowWidth windowHeight))
  /\ (exists coordinates rowCount colCount zeros_h zeros_w,
        divideIntoPatches fuel (Some imageWidth) (Some imageHeight)
          (Some slideWindowSize) (Some strideSize) (Some "SAME"%string)
          numberPatches
        = Some (Ok (Patches5 coordinates rowCount colCount zeros_h zeros_w))
        /\ 1 <= rowCount /\ 1 <= colCount
        /\ Z.of_nat (List.length coordinates) = rowCount * colCount
        /\ hd_error coordinates = Some (mkBox 0 0 windowWidth windowHeight)).
Proof.
  intros ww wh sw sh Hsw Hsh Hfw Hfh.
  pose proof (clamp_to_image_le (fst slideWindowSize) imageWidth) as Hww.
  pose proof (clamp_to_image_le (snd slideWindowSize) imageHeight) as Hwh.
  fold ww in Hww. fold wh in Hwh.
  repeat (split; [now apply clamp_to_image_oversized|]).
  split.
  - pose proof (count_fitting_window wh sh imageHeight Hsh Hwh) as Hr.
    pose proof (count_fitting_window ww sw imageWidth Hsw Hww) as Hc.
    do 3 eexists. split.
    { unfold divideIntoPatches. cbn [or_default String.eqb].
      fold ww wh sw sh. unfold get_valid_padding.
      rewrite (grow_closed_form sh imageHeight Hsh) by lia.
      rewrite (grow_closed_form sw imageWidth Hsw) by lia.
      rewrite !Z.add_0_l, enumerate_patches_row_major. reflexivity. }
    repeat split; try assumption.
    + rewrite row_major_length. lia.
    + apply row_major_head; lia.
  - pose proof (computeSamePadding_bounds wh sh imageHeight Hsh Hwh) as Hzh.
    pose proof (computeSamePadding_bounds ww sw imageWidth Hsw Hww) as Hzw.
    set (zh := computeSamePadding_spec wh sh imageHeight) in *.
    set (zw := computeSamePadding_spec ww sw imageWidth) in *.
    pose proof (count_fitting_window wh sh (imageHeight + zh) Hsh
                  ltac:(lia)) as Hr.
    pose proof (count_fitting_window ww sw (imageWidth + zw) Hsw
                  ltac:(lia)) as Hc.
    do 5 eexists. split.
    { unfold divideIntoPatches. cbn [or_default String.eqb].
      fold ww wh sw sh. unfold get_same_padding.
      rewrite (grow_closed_form sh imageHeight Hsh) by lia.
      rewrite (grow_closed_form sw imageWidth Hsw) by lia.
      destruct (same_zeros_closed_form ww sw imageWidth
                  "Slide window + stride is bigger than width" Hsw
                  ltac:(lia)) as [-> _].
      destruct (same_zeros_closed_form wh sh imageHeight
                  "Slide window + stride is bigger than height" Hsh
                  ltac:(lia)) as [-> _].
      cbn [bind]. fold zh zw. unfold get_valid_padding.
      rewrite (grow_closed_form sh (imageHeight + zh) Hsh) by lia.
      rewrite (grow_closed_form sw (imageWidth + zw) Hsw) by lia.
      rewrite !Z.add_0_l, enumerate_patches_row_major. reflexivity. }
    repeat split; try assumption.
    + rewrite row_major_length. lia.
    + apply row_major_head; lia.
Qed.

Lemma divideIntoPatches_oversized_window_witness :
  clamp_to_image 20 8 = 7
  /\ exists coordinates rowCount colCount,
       divideIntoPatches 30 (Some 8) (Some 6) (Some (20, 3)) (Some (2, 2))
         (Some "VALID"%string) None
       = Some (Ok (Patches3 coordinates rowCount colCount))
       /\ 1 <= rowCount /\ 1 <= colCount
       /\ Z.of_nat (List.length coordinates) = rowCount * colCount
       /\ hd_error coordinates = Some (mkBox 0 0 7 3).
Proof.
  pose proof (divideIntoPatches_oversized_window 30 8 6 (20, 3) (2, 2) None)
    as H.
  cbv zeta in H.
  destruct H as (Hw & _ & _ & _ & Hvalid & _).
  - vm_compute; reflexivity.
  - vm_compute; reflexivity.
  - vm_compute; lia.
  - vm_compute; lia.
  - split; [apply Hw; cbn; lia|exact Hvalid].
Defined.

(** C10 as stated fails on a 1 x 1 frame.  A window of (5, 5) with strides
    (1, 1) is replaced by (0, 0), below 1: the four patches returned are
    empty.  With strides (5, 5) as well, the strides become (0, 0) and the
    call never returns. *)
Lemma divideIntoPatches_one_pixel_frame :
  divideIntoPatches 3 (Some 1) (Some 1) (Some (5, 5)) (Some (1, 1))
    (Some "VALID"%string) None
  = Some (Ok (Patches3 [mkBox 0 0 0 0; mkBox 1 0 1 0;
                        mkBox 0 1 0 1; mkBox 1 1 1 1] 2 2))
  /\ clamp_to_image 5 1 = 0
  /\ ~ (exists fuel r,
          divideIntoPatches fuel (Some 1) (Some 1) (Some (5, 5))
            (Some (5, 5)) (Some "VALID"%string) None = Some r).
Proof.
  split; [reflexivity|]. split; [reflexivity|].
  intros (fuel & r & H).
  unfold divideIntoPatches in H. cbn [or_default String.eqb fst snd] in H.
  rewrite get_valid_padding_diverges in H; [discriminate|].
  left. vm_compute. split; discriminate.
Qed.

(** ** FramePadder *)

Section FramePadding.

Context {px : Type}.
Variable zero : px.

Lemma firstn_repeat (k n : nat) (x : px) :
  (k <= n)%nat -> firstn k (repeat x n) = repeat x k.
Proof.
  revert n. induction k as [|k IH]; intros n Hk; [reflexivity|].
  destruct n as [|n]; [lia|]. cbn. f_equal. apply IH. lia.
Qed.

Lemma skipn_repeat (k n : nat) (x : px) :
  skipn k (repeat x n) = repeat x (n - k).
Proof.
  revert n. induction k as [|k IH]; intros n.
  - now rewrite Nat.sub_0_r.
  - destruct n as [|n]; [reflexivity|]. cbn. apply IH.
Qed.

Lemma map_combine_repeat {A B C : Type} (f : A * B -> C) (a : A)
  (l : list B) :
  map f (combine (repeat a (List.length l)) l) = map (fun b => f (a, b)) l.
Proof.
  induction l as [|b l IH]; [reflexivity|]. cbn. now rewrite IH.
Qed.

Lemma half_rounded_up_spec (zeros : nat) :
  half_rounded_up zeros = ((zeros + 1) / 2)%nat
  /\ (Nat.even zeros = true -> (2 * half_rounded_up zeros = zeros)%nat)
  /\ (Nat.even zeros = false ->
      (2 * half_rounded_up zeros = zeros + 1)%nat).
Proof.
  unfold half_rounded_up.
  destruct (Nat.even zeros) eqn:He.
  - apply Nat.even_spec in He as [k ->].
    assert (H1 : ((2 * k) / 2 = k)%nat)
      by (rewrite Nat.mul_comm; apply Nat.div_mul; lia).
    assert (H2 : ((2 * k + 1) / 2 = k)%nat).
    { symmetry. apply (Nat.div_unique _ _ _ 1%nat); lia. }
    rewrite H1, H2. repeat split; try lia; discriminate.
  - assert (Ho : Nat.odd zeros = true)
      by (rewrite <- Nat.negb_even, He; reflexivity).
    apply Nat.odd_spec in Ho as [k ->].
    assert (H2 : ((2 * k + 1 + 1) / 2 = k + 1)%nat).
    { symmetry. apply (Nat.div_unique _ _ _ 0%nat); lia. }
    rewrite H2. repeat split; try lia; discriminate.
Qed.

Lemma padded_both_sides_rectangular (frame : ndarray px) (top left : nat) :
  rectangular frame ->
  List.length (padded_both_sides zero frame top left)
  = (top + shape_rows frame + top)%nat
  /\ Forall (fun row =>
               List.length row = (left + shape_cols frame + left)%nat)
       (padded_both_sides zero frame top left).
Proof.
  intros [Hrows Hcols]. unfold padded_both_sides. split.
  - rewrite !length_app, !repeat_length, length_map. lia.
  - rewrite !Forall_app. repeat split.
    + apply Forall_forall. intros row Hin.
      apply repeat_spec in Hin as ->. apply repeat_length.
    + apply Forall_map. eapply Forall_impl; [|exact Hcols].
      intros row Hrow. cbn beta in Hrow |- *.
      rewrite !length_app, !repeat_length. lia.
    + apply Forall_forall. intros row Hin.
      apply repeat_spec in Hin as ->. apply repeat_length.
Qed.

Lemma lazySAMEpad_both_sides_layout (frame : ndarray px)
  (zeros_h zeros_w : nat) :
  rectangular frame ->
  lazySAMEpad zero frame zeros_h zeros_w "BOTH_SIDES"
  = Some (mkArray
            (half_rounded_up zeros_h + shape_rows frame
             + half_rounded_up zeros_h)
            (half_rounded_up zeros_w * 2 + shape_cols frame)
            (padded_both_sides zero frame (half_rounded_up zeros_h)
               (half_rounded_up zeros_w))).
Proof.
  intros [Hrows Hcols].
  set (top := half_rounded_up zeros_h).
  set (left := half_rounded_up zeros_w).
  unfold lazySAMEpad. cbn [String.eqb Ascii.eqb Bool.eqb].
  fold top left. unfold assign_columns, r_, np_zeros.
  cbn [shape_rows shape_cols pixels]. f_equal. f_equal.
  set (W := (left * 2 + shape_cols frame)%nat).
  set (P := (repeat (repeat zero (shape_cols frame)) top ++ pixels frame)
            ++ repeat (repeat zero (shape_cols frame)) top).
  assert (HP : (top + shape_rows frame + top)%nat = List.length P).
  { unfold P. rewrite !length_app, !repeat_length. lia. }
  rewrite HP, map_combine_repeat. cbn [fst snd].
  rewrite firstn_repeat by (unfold W; lia).
  rewrite skipn_repeat.
  replace (W - (W - left))%nat with left by (unfold W; lia).
  unfold P, padded_both_sides.
  rewrite !map_app, !map_repeat, <- !repeat_app, <- app_assoc.
  replace (left + (shape_cols frame + left))%nat
    with (left + shape_cols frame + left)%nat by lia.
  reflexivity.
Qed.


(** C9, as the code has it.  In BOTH_SIDES mode an odd amount is first
    rounded up to the next even number: each side of an axis receives
    [ceil(amount / 2)] zero pixels.  The raster returned has size
    [(origHeight + zerosHeight, origWidth + zerosWidth)] on an axis
    whose amount is even, and one more than that on an axis whose
    amount is odd. *)
Theorem lazySAMEpad_both_sides_rounds_up (frame : ndarray px)
  (zeros_h zeros_w : nat) :
  rectangular frame ->
  let top := ((zeros_h + 1) / 2)%nat in
  let left := ((zeros_w + 1) / 2)%nat in
  exists out : ndarray px,
    lazySAMEpad zero frame zeros_h zeros_w "BOTH_SIDES" = Some out
    /\ rectangular out
    /\ pixels out = padded_both_sides zero frame top left
    /\ shape_rows out = (top + shape_rows frame + top)%nat
    /\ shape_cols out = (left + shape_cols frame + left)%nat
    /\ (Nat.even zeros_h = true ->
        shape_rows out = (shape_rows frame + zeros_h)%nat)
    /\ (Nat.even zeros_h = false ->
        shape_rows out = (shape_rows frame + zeros_h + 1)%nat)
    /\ (Nat.even zeros_w = true ->
        shape_cols out = (shape_cols frame + zeros_w)%nat)
    /\ (Nat.even zeros_w = false ->
        shape_cols out = (shape_cols frame + zeros_w + 1)%nat).
Proof.
  intros Hrect top left.
  destruct (half_rounded_up_spec zeros_h) as (Ht & Hhe & Hho).
  destruct (half_rounded_up_spec zeros_w) as (Hl & Hwe & Hwo).
  fold top in Ht. fold left in Hl.
  eexists. split; [now apply lazySAMEpad_both_sides_layout|].
  rewrite Ht, Hl in *. cbn [shape_rows shape_cols pixels].
  destruct (padded_both_sides_rectangular frame top left Hrect)
    as [Hlen Hall].
  split; [split|]; cbn [shape_rows shape_cols pixels].
  - exact Hlen.
  - eapply Forall_impl; [|exact Hall]. intros row Hrow.
    cbn beta in Hrow |- *. lia.
  - repeat split; try reflexivity; try lia; intros He;
      try specialize (Hhe He); try specialize (Hho He);
      try specialize (Hwe He); try specialize (Hwo He); lia.
Qed.

End FramePadding.

Lemma lazySAMEpad_both_sides_rounds_up_witness :
  exists out : ndarray Z,
    lazySAMEpad 0 (mkArray 2 2 [[1; 2]; [3; 4]]) 3 2 "BOTH_SIDES" = Some out
    /\ shape_rows out = 6%nat /\ shape_cols out = 4%nat.
Proof.
  destruct (lazySAMEpad_both_sides_rounds_up 0
              (mkArray 2 2 [[1; 2]; [3; 4]]) 3 2)
    as (out & Hout & _ & _ & Hr & Hc & _).
  - split; [reflexivity|]. repeat constructor.
  - exists out. repeat split; assumption.
Defined.

(** C9 as stated fails for a 1 x 1 frame padded by (1, 1): the raster
    returned is 3 x 3, not 2 x 2, with one row of zeros above the frame
    and one column of zeros before it, where floor(1 / 2) = 0. *)
Lemma lazySAMEpad_both_sides_odd_amount :
  lazySAMEpad 0 (mkArray 1 1 [[7]]) 1 1 "BOTH_SIDES"
  = Some (mkArray 3 3 [[0; 0; 0]; [0; 7; 0]; [0; 0; 0]])
  /\ (3 <> 1 + 1)%nat
  /\ (1 / 2 = 0)%nat.
Proof.
  split; [reflexivity|]. split; [discriminate|reflexivity].
Qed.

(** * Further properties of the code *)

(** ** get_valid_padding and get_same_padding *)

Lemma count_maximal (w s t : Z) :
  0 < s ->
  0 <= countValidPatches_spec w s t
  /\ (t < w -> countValidPatches_spec w s t = 0)
  /\ (w <= t ->
      1 <= countValidPatches_spec w s t
      /\ w + s * (countValidPatches_spec w s t - 1) <= t)
  /\ t < w + s * countValidPatches_spec w s t.
Proof.
  intros Hs. unfold countValidPatches_spec.
  destruct (Z.gtb_spec w t) as [Hgt|Hle].
  - repeat split; lia.
  - pose proof (Z.mul_div_le (t - w) s Hs).
    pose proof (Z.mul_succ_div_gt (t - w) s Hs).
    assert (0 <= (t - w) / s) by (apply Z.div_pos; lia).
    repeat split; lia.
Qed.

(** The counts of [get_valid_padding] are the numbers of window positions
    that fit: 0 for a window larger than the image, at least 1 otherwise;
    the last counted window ends inside the image and one more would
    not. *)
Theorem get_valid_padding_maximal (fuel : nat) (wh sh ih ww sw iw : Z) :
  0 < sh -> 0 < sw ->
  (Z.to_nat (ih - wh + 1) < fuel)%nat ->
  (Z.to_nat (iw - ww + 1) < fuel)%nat ->
  exists nh nw : Z,
    get_valid_padding fuel wh sh ih ww sw iw = Some (nh, nw)
    /\ (0 <= nh /\ (ih < wh -> nh = 0)
        /\ (wh <= ih -> 1 <= nh /\ wh + sh * (nh - 1) <= ih)
        /\ ih < wh + sh * nh)
    /\ (0 <= nw /\ (iw < ww -> nw = 0)
        /\ (ww <= iw -> 1 <= nw /\ ww + sw * (nw - 1) <= iw)
        /\ iw < ww + sw * nw).
Proof.
  intros Hsh Hsw Hfh Hfw. do 2 eexists. split.
  - unfold get_valid_padding.
    rewrite (grow_closed_form sh ih Hsh) by assumption.
    rewrite (grow_closed_form sw iw Hsw) by assumption.
    rewrite !Z.add_0_l. reflexivity.
  - split; apply count_maximal; assumption.
Qed.

Lemma get_valid_padding_maximal_witness :
  exists nh nw : Z,
    get_valid_padding 30 5 4 12 10 5 25 = Some (nh, nw)
    /\ (0 <= nh /\ (12 < 5 -> nh = 0)
        /\ (5 <= 12 -> 1 <= nh /\ 5 + 4 * (nh - 1) <= 12)
        /\ 12 < 5 + 4 * nh)
    /\ (0 <= nw /\ (25 < 10 -> nw = 0)
        /\ (10 <= 25 -> 1 <= nw /\ 10 + 5 * (nw - 1) <= 25)
        /\ 25 < 10 + 5 * nw).
Proof.
  apply (get_valid_padding_maximal 30 5 4 12 10 5 25); lia.
Defined.

(** Extending the target by the zeros of SAME makes the windows reach its
    far edge exactly. *)
Lemma same_padding_exact (w s t : Z) :
  0 < s -> w <= t ->
  fittedExtent_spec w s (t + computeSamePadding_spec w s t)
  = t + computeSamePadding_spec w s t.
Proof.
  intros Hs Hw.
  pose proof (fittedExtent_le w s t Hs Hw) as Hfit.
  unfold computeSamePadding_spec.
  destruct (Z.eqb_spec (fittedExtent_spec w s t) t) as [Heq|Hne].
  - rewrite Z.add_0_r. exact Heq.
  - revert Hfit Hne. unfold fittedExtent_spec, countValidPatches_spec.
    destruct (Z.gtb_spec w t) as [Hgt|_]; [lia|].
    set (q := (t - w) / s). intros Hfit Hne.
    replace (t + (w + s * (q + 1 - 1) + s - t)) with (w + (q + 1) * s)
      by ring.
    destruct (Z.gtb_spec w (w + (q + 1) * s)) as [Hgt|_].
    + assert (0 <= q) by (apply Z.div_pos; lia). nia.
    + replace (w + (q + 1) * s - w) with ((q + 1) * s) by ring.
      rewrite Z.div_mul by lia. ring.
Qed.

Lemma same_padding_idempotent (w s t : Z) :
  0 < s -> w <= t ->
  computeSamePadding_spec w s (t + computeSamePadding_spec w s t) = 0.
Proof.
  intros Hs Hw. unfold computeSamePadding_spec at 1.
  rewrite same_padding_exact by assumption.
  now rewrite Z.eqb_refl.
Qed.

(** For windows that fit and positive strides, the zeros of
    [get_same_padding] are less than one stride, and on the image extended
    by them the windows counted by [get_valid_padding] end exactly on the
    far edge; asking [get_same_padding] again on the extended image gives
    (0, 0). *)
Theorem get_same_padding_tiles_exactly (fuel : nat)
  (wh sh ih ww sw iw : Z) :
  0 < sh -> 0 < sw -> wh <= ih -> ww <= iw ->
  (Z.to_nat (ih + sh - wh + 1) < fuel)%nat ->
  (Z.to_nat (iw + sw - ww + 1) < fuel)%nat ->
  exists zeros_h zeros_w nh nw : Z,
    get_same_padding fuel wh sh ih ww sw iw = Some (Ok (zeros_h, zeros_w))
    /\ 0 <= zeros_h < sh /\ 0 <= zeros_w < sw
    /\ get_valid_padding fuel wh sh (ih + zeros_h) ww sw (iw + zeros_w)
       = Some (nh, nw)
    /\ wh + sh * (nh - 1) = ih + zeros_h
    /\ ww + sw * (nw - 1) = iw + zeros_w
    /\ get_same_padding fuel wh sh (ih + zeros_h) ww sw (iw + zeros_w)
       = Some (Ok (0, 0)).
Proof.
  intros Hsh Hsw Hwh Hww Hfh Hfw.
  pose proof (computeSamePadding_bounds wh sh ih Hsh Hwh) as Hzh.
  pose proof (computeSamePadding_bounds ww sw iw Hsw Hww) as Hzw.
  exists (computeSamePadding_spec wh sh ih), (computeSamePadding_spec ww sw iw).
  do 2 eexists.
  assert (Hsame : forall ih' iw',
             wh <= ih' -> ww <= iw' ->
             (Z.to_nat (ih' - wh + 1) < fuel)%nat ->
             (Z.to_nat (iw' - ww + 1) < fuel)%nat ->
             get_same_padding fuel wh sh ih' ww sw iw'
             = Some (Ok (computeSamePadding_spec wh sh ih',
                         computeSamePadding_spec ww sw iw'))).
  { intros ih' iw' Hh Hw Hf1 Hf2. unfold get_same_padding.
    rewrite (grow_closed_form sh ih' Hsh) by assumption.
    rewrite (grow_closed_form sw iw' Hsw) by assumption.
    destruct (same_zeros_closed_form ww sw iw'
                "Slide window + stride is bigger than width" Hsw
                ltac:(lia)) as [-> _].
    destruct (same_zeros_closed_form wh sh ih'
                "Slide window + stride is bigger than height" Hsh
                ltac:(lia)) as [-> _].
    reflexivity. }
  split; [apply Hsame; (assumption || lia)|].
  split; [assumption|]. split; [assumption|].
  split.
  { unfold get_valid_padding.
    rewrite (grow_closed_form sh _ Hsh) by lia.
    rewrite (grow_closed_form sw _ Hsw) by lia.
    rewrite !Z.add_0_l. reflexivity. }
  split; [exact (same_padding_exact wh sh ih Hsh Hwh)|].
  split; [exact (same_padding_exact ww sw iw Hsw Hww)|].
  rewrite Hsame by lia.
  now rewrite !same_padding_idempotent.
Qed.

Lemma get_same_padding_tiles_exactly_witness :
  exists zeros_h zeros_w nh nw : Z,
    get_same_padding 40 10 5 23 4 3 12 = Some (Ok (zeros_h, zeros_w))
    /\ 0 <= zeros_h < 5 /\ 0 <= zeros_w < 3
    /\ get_valid_padding 40 10 5 (23 + zeros_h) 4 3 (12 + zeros_w)
       = Some (nh, nw)
    /\ 10 + 5 * (nh - 1) = 23 + zeros_h
    /\ 4 + 3 * (nw - 1) = 12 + zeros_w
    /\ get_same_padding 40 10 5 (23 + zeros_h) 4 3 (12 + zeros_w)
       = Some (Ok (0, 0)).
Proof.
  apply (get_same_padding_tiles_exactly 40 10 5 23 4 3 12); lia.
Defined.

(** ** divideIntoPatches *)

Lemma row_major_In (r c : nat) (ww wh sw sh : Z) (p : Box) :
  In p (row_major r c ww wh sw sh) ->
  exists i j : nat,
    (i < r)%nat /\ (j < c)%nat
    /\ p = patch_at ww wh sw sh (Z.of_nat i) (Z.of_nat j).
Proof.
  unfold row_major. intros Hin.
  apply in_flat_map in Hin as (i & Hi & Hin).
  apply in_map_iff in Hin as (j & <- & Hj).
  apply in_seq in Hi. apply in_seq in Hj.
  exists i, j. repeat split; lia.
Qed.

Lemma clamp_to_image_fits (dim image : Z) :
  dim <= image -> clamp_to_image dim image = dim.
Proof.
  unfold clamp_to_image. destruct (Z.gtb_spec dim image); lia.
Qed.

(** What the VALID branch returns for positive strides. *)
Lemma divideIntoPatches_valid_eq (fuel : nat) (imageWidth imageHeight : Z)
  (slideWindowSize strideSize : Z * Z) (numberPatches : option (Z * Z)) :
  let ww := clamp_to_image (fst slideWindowSize) imageWidth in
  let wh := clamp_to_image (snd slideWindowSize) imageHeight in
  let sw := clamp_to_image (fst strideSize) imageWidth in
  let sh := clamp_to_image (snd strideSize) imageHeight in
  0 < sw -> 0 < sh ->
  (Z.to_nat (imageWidth - ww + 1) < fuel)%nat ->
  (Z.to_nat (imageHeight - wh + 1) < fuel)%nat ->
  divideIntoPatches fuel (Some imageWidth) (Some imageHeight)
    (Some slideWindowSize) (Some strideSize) (Some "VALID"%string)
    numberPatches
  = Some (Ok (Patches3
       (row_major (Z.to_nat (countValidPatches_spec wh sh imageHeight))
          (Z.to_nat (countValidPatches_spec ww sw imageWidth)) ww wh sw sh)
       (countValidPatches_spec wh sh imageHeight)
       (countValidPatches_spec ww sw imageWidth))).
Proof.
  intros ww wh sw sh Hsw Hsh Hfw Hfh.
  unfold divideIntoPatches. cbn [or_default String.eqb].
  fold ww wh sw sh. unfold get_valid_padding.
  rewrite (grow_closed_form sh imageHeight Hsh) by assumption.
  rewrite (grow_closed_form sw imageWidth Hsw) by assumption.
  rewrite !Z.add_0_l, enumerate_patches_row_major. reflexivity.
Qed.

(** Every patch of a VALID plan lies inside the image and has the size of
    the (normalised) window. *)
Theorem divideIntoPatches_valid_patches_inside (fuel : nat)
  (imageWidth imageHeight : Z) (slideWindowSize strideSize : Z * Z)
  (numberPatches : option (Z * Z)) :
  let windowWidth := clamp_to_image (fst slideWindowSize) imageWidth in
  let windowHeight := clamp_to_image (snd slideWindowSize) imageHeight in
  let strideWidth := clamp_to_image (fst strideSize) imageWidth in
  let strideHeight := clamp_to_image (snd strideSize) imageHeight in
  0 < strideWidth -> 0 < strideHeight ->
  (Z.to_nat (imageWidth - windowWidth + 1) < fuel)%nat ->
  (Z.to_nat (imageHeight - windowHeight + 1) < fuel)%nat ->
  exists coordinates rowCount colCount,
    divideIntoPatches fuel (Some imageWidth) (Some imageHeight)
      (Some slideWindowSize) (Some strideSize) (Some "VALID"%string)
      numberPatches
    = Some (Ok (Patches3 coordinates rowCount colCount))
    /\ Forall (fun p =>
         (0 <= b0 p /\ b2 p <= imageWidth /\ b2 p - b0 p = windowWidth)
         /\ (0 <= b1 p /\ b3 p <= imageHeight
             /\ b3 p - b1 p = windowHeight)) coordinates.
Proof.
  intros ww wh sw sh Hsw Hsh Hfw Hfh. do 3 eexists. split.
  - apply divideIntoPatches_valid_eq; assumption.
  - fold ww wh sw sh.
    pose proof (clamp_to_image_le (fst slideWindowSize) imageWidth) as Hww.
    pose proof (clamp_to_image_le (snd slideWindowSize) imageHeight) as Hwh.
    fold ww in Hww. fold wh in Hwh.
    destruct (count_maximal ww sw imageWidth Hsw) as (Hc0 & _ & Hc & _).
    destruct (count_maximal wh sh imageHeight Hsh) as (Hr0 & _ & Hr & _).
    specialize (Hc Hww). specialize (Hr Hwh).
    apply Forall_forall. intros p Hin.
    apply row_major_In in Hin as (i & j & Hi & Hj & ->).
    unfold patch_at. cbn [b0 b1 b2 b3].
    repeat split; try nia.
Qed.

Lemma divideIntoPatches_valid_patches_inside_witness :
  exists coordinates rowCount colCount,
    divideIntoPatches 30 (Some 25) (Some 12) (Some (10, 5)) (Some (5, 4))
      (Some "VALID"%string) None
    = Some (Ok (Patches3 coordinates rowCount colCount))
    /\ Forall (fun p =>
         (0 <= b0 p /\ b2 p <= 25 /\ b2 p - b0 p = 10)
         /\ (0 <= b1 p /\ b3 p <= 12 /\ b3 p - b1 p = 5)) coordinates.
Proof.
  apply (divideIntoPatches_valid_patches_inside 30 25 12 (10, 5) (5, 4) None);
    vm_compute; solve [reflexivity | lia].
Defined.

(** A SAME plan returns zeros below one stride per axis and a grid whose
    last window ends exactly on the far edge of the image extended by the
    zeros; a VALID plan on the extended image, with the normalised window
    and stride, returns the same patches and counts. *)
Theorem divideIntoPatches_same_covers_extended_image (fuel : nat)
  (imageWidth imageHeight : Z) (slideWindowSize strideSize : Z * Z)
  (numberPatches : option (Z * Z)) :
  let windowWidth := clamp_to_image (fst slideWindowSize) imageWidth in
  let windowHeight := clamp_to_image (snd slideWindowSize) imageHeight in
  let strideWidth := clamp_to_image (fst strideSize) imageWidth in
  let strideHeight := clamp_to_image (snd strideSize) imageHeight in
  0 < strideWidth -> 0 < strideHeight ->
  (Z.to_nat (imageWidth + strideWidth - windowWidth + 1) < fuel)%nat ->
  (Z.to_nat (imageHeight + strideHeight - windowHeight + 1) < fuel)%nat ->
  exists coordinates rowCount colCount zeros_h zeros_w,
    divideIntoPatches fuel (Some imageWidth) (Some imageHeight)
      (Some slideWindowSize) (Some strideSize) (Some "SAME"%string)
      numberPatches
    = Some (Ok (Patches5 coordinates rowCount colCount zeros_h zeros_w))
    /\ 0 <= zeros_h < strideHeight /\ 0 <= zeros_w < strideWidth
    /\ coordinates
       = row_major (Z.to_nat rowCount) (Z.to_nat colCount)
           windowWidth windowHeight strideWidth strideHeight
    /\ windowWidth + strideWidth * (colCount - 1) = imageWidth + zeros_w
    /\ windowHeight + strideHeight * (rowCount - 1) = imageHeight + zeros_h
    /\ divideIntoPatches fuel (Some (imageWidth + zeros_w))
         (Some (imageHeight + zeros_h))
         (Some (windowWidth, windowHeight))
         (Some (strideWidth, strideHeight)) (Some "VALID"%string)
         numberPatches
       = Some (Ok (Patches3 coordinates rowCount colCount)).
Proof.
  intros ww wh sw sh Hsw Hsh Hfw Hfh.
  pose proof (clamp_to_image_le (fst slideWindowSize) imageWidth) as Hww.
  pose proof (clamp_to_image_le (snd slideWindowSize) imageHeight) as Hwh.
  pose proof (clamp_to_image_le (fst strideSize) imageWidth) as Hsw'.
  pose proof (clamp_to_image_le (snd strideSize) imageHeight) as Hsh'.
  fold ww in Hww. fold wh in Hwh. fold sw in Hsw'. fold sh in Hsh'.
  pose proof (computeSamePadding_bounds wh sh imageHeight Hsh Hwh) as Hzh.
  pose proof (computeSamePadding_bounds ww sw imageWidth Hsw Hww) as Hzw.
  pose proof (same_padding_exact wh sh imageHeight Hsh Hwh) as Heh.
  pose proof (same_padding_exact ww sw imageWidth Hsw Hww) as Hew.
  set (zh := computeSamePadding_spec wh sh imageHeight) in *.
  set (zw := computeSamePadding_spec ww sw imageWidth) in *.
  exists (row_major
            (Z.to_nat (countValidPatches_spec wh sh (imageHeight + zh)))
            (Z.to_nat (countValidPatches_spec ww sw (imageWidth + zw)))
            ww wh sw sh),
    (countValidPatches_spec wh sh (imageHeight + zh)),
    (countValidPatches_spec ww sw (imageWidth + zw)), zh, zw.
  split.
  { unfold divideIntoPatches. cbn [or_default String.eqb].
    fold ww wh sw sh. unfold get_same_padding.
    rewrite (grow_closed_form sh imageHeight Hsh) by lia.
    rewrite (grow_closed_form sw imageWidth Hsw) by lia.
    destruct (same_zeros_closed_form ww sw imageWidth
                "Slide window + stride is bigger than width" Hsw
                ltac:(lia)) as [-> _].
    destruct (same_zeros_closed_form wh sh imageHeight
                "Slide window + stride is bigger than height" Hsh
                ltac:(lia)) as [-> _].
    cbn [bind]. fold zh zw. unfold get_valid_padding.
    rewrite (grow_closed_form sh (imageHeight + zh) Hsh) by lia.
    rewrite (grow_closed_form sw (imageWidth + zw) Hsw) by lia.
    rewrite !Z.add_0_l, enumerate_patches_row_major. reflexivity. }
  split; [assumption|]. split; [assumption|]. split; [reflexivity|].
  split; [exact Hew|]. split; [exact Heh|].
  pose proof (divideIntoPatches_valid_eq fuel (imageWidth + zw)
                (imageHeight + zh) (ww, wh) (sw, sh) numberPatches) as Hv.
  cbn [fst snd] in Hv. cbv zeta in Hv.
  rewrite !clamp_to_image_fits in Hv by lia.
  apply Hv; lia.
Qed.

Lemma divideIntoPatches_same_covers_extended_image_witness :
  exists coordinates rowCount colCount zeros_h zeros_w,
    divideIntoPatches 40 (Some 23) (Some 12) (Some (10, 4)) (Some (5, 3))
      (Some "SAME"%string) None
    = Some (Ok (Patches5 coordinates rowCount colCount zeros_h zeros_w))
    /\ 0 <= zeros_h < 3 /\ 0 <= zeros_w < 5
    /\ coordinates
       = row_major (Z.to_nat rowCount) (Z.to_nat colCount) 10 4 5 3
    /\ 10 + 5 * (colCount - 1) = 23 + zeros_w
    /\ 4 + 3 * (rowCount - 1) = 12 + zeros_h
    /\ divideIntoPatches 40 (Some (23 + zeros_w)) (Some (12 + zeros_h))
         (Some (10, 4)) (Some (5, 3)) (Some "VALID"%string) None
       = Some (Ok (Patches3 coordinates rowCount colCount)).
Proof.
  apply (divideIntoPatches_same_covers_extended_image 40 23 12 (10, 4) (5, 3)
           None); vm_compute; solve [reflexivity | lia].
Defined.





(** The exceptions of divideIntoPatches, none of which waits for a loop:
    a missing image width or height; a padding that is none of VALID,
    SAME and VALID_FIT_ALL; a VALID_FIT_ALL tile count of 0 (the rows are
    divided first). *)
Theorem divideIntoPatches_exceptions (fuel : nat)
  (imageWidth imageHeight : Z) (slideWindowSize strideSize : option (Z * Z))
  (padding : string) (numberPatches : option (Z * Z))
  (patchesCols patchesRows : Z) :
  divideIntoPatches fuel None (Some imageHeight) slideWindowSize strideSize
    (Some padding) numberPatches
  = Some (Raise (Exception "Image width cannot be empty."))
  /\ divideIntoPatches fuel (Some imageWidth) None slideWindowSize strideSize
       (Some padding) numberPatches
     = Some (Raise (Exception "Image height cannot be empty."))
  /\ (padding <> "VALID"%string -> padding <> "SAME"%string ->
      padding <> "VALID_FIT_ALL"%string ->
      divideIntoPatches fuel (Some imageWidth) (Some imageHeight)
        slideWindowSize strideSize (Some padding) numberPatches
      = Some (Raise (Exception "Type of padding not understood.")))
  /\ (patchesRows = 0 \/ patchesCols = 0 ->
      divideIntoPatches fuel (Some imageWidth) (Some imageHeight)
        slideWindowSize strideSize (Some "VALID_FIT_ALL"%string)
        (Some (patchesCols, patchesRows))
      = Some (Raise ZeroDivisionError)).
Proof.
  split; [reflexivity|]. split; [reflexivity|]. split.
  - intros H1 H2 H3. unfold divideIntoPatches. cbn [or_default].
    apply String.eqb_neq in H1, H2, H3. now rewrite H1, H2, H3.
  - intros H0. unfold divideIntoPatches.
    cbn [or_default String.eqb Ascii.eqb Bool.eqb fst snd].
    cbn -[Z.div Z.eqb get_valid_padding enumerate_patches clamp_to_image].
    unfold floor_div.
    destruct (Z.eqb_spec patchesRows 0) as [_|Hr]; [reflexivity|].
    destruct (Z.eqb_spec patchesCols 0) as [_|Hc]; [reflexivity|lia].
Qed.

Lemma divideIntoPatches_exceptions_witness :
  divideIntoPatches 0 (Some 10) (Some 10) None None (Some "FULL"%string)
    None
  = Some (Raise (Exception "Type of padding not understood."))
  /\ divideIntoPatches 0 (Some 10) (Some 10) None None
       (Some "VALID_FIT_ALL"%string) (Some (0, 2))
     = Some (Raise ZeroDivisionError).
Proof.
  destruct (divideIntoPatches_exceptions 0 10 10 None None "FULL" None 0 2)
    as (_ & _ & Hp & _).
  destruct (divideIntoPatches_exceptions 0 10 10 None None "FULL" None 0 2)
    as (_ & _ & _ & Hz).
  split.
  - apply Hp; discriminate.
  - apply Hz. right. reflexivity.
Defined.

(** With the stride left out (it defaults to (0, 0)) or not positive after
    the normalisation, a VALID or SAME call, the default padding included,
    never returns: the window never exceeds the image after the
    normalisation, and the counting loop does not advance. *)
Theorem divideIntoPatches_needs_positive_stride (fuel : nat)
  (imageWidth imageHeight : Z) (slideWindowSize strideSize : option (Z * Z))
  (padding : option string) (numberPatches : option (Z * Z)) :
  padding = None \/ padding = Some "VALID"%string
  \/ padding = Some "SAME"%string ->
  strideSize = None
  \/ clamp_to_image (fst (or_default strideSize (0, 0))) imageWidth <= 0
  \/ clamp_to_image (snd (or_default strideSize (0, 0))) imageHeight <= 0 ->
  divideIntoPatches fuel (Some imageWidth) (Some imageHeight)
    slideWindowSize strideSize padding numberPatches = None.
Proof.
  intros Hp Hs.
  assert (Hstride :
            clamp_to_image (fst (or_default strideSize (0, 0))) imageWidth
            <= 0
            \/ clamp_to_image (snd (or_default strideSize (0, 0)))
                 imageHeight <= 0).
  { destruct Hs as [->|Hs]; [|exact Hs].
    left. cbn [or_default fst]. unfold clamp_to_image.
    destruct (Z.gtb_spec 0 imageWidth); lia. }
  pose proof (clamp_to_image_le
                (fst (or_default slideWindowSize (0, 0))) imageWidth) as Hww.
  pose proof (clamp_to_image_le
                (snd (or_default slideWindowSize (0, 0))) imageHeight) as Hwh.
  assert (Hdiv : (clamp_to_image (snd (or_default strideSize (0, 0)))
                    imageHeight <= 0
                  /\ clamp_to_image (snd (or_default slideWindowSize (0, 0)))
                       imageHeight <= imageHeight)
                 \/ (clamp_to_image (fst (or_default strideSize (0, 0)))
                       imageWidth <= 0
                     /\ clamp_to_image
                          (fst (or_default slideWindowSize (0, 0)))
                          imageWidth <= imageWidth)).
  { destruct Hstride; [right|left]; split; assumption. }
  unfold divideIntoPatches.
  destruct Hp as [->|[->| ->]]; cbn [or_default String.eqb].
  - now rewrite get_valid_padding_diverges.
  - now rewrite get_valid_padding_diverges.
  - cbn [String.eqb Ascii.eqb Bool.eqb].
    now rewrite get_same_padding_diverges.
Qed.

Lemma divideIntoPatches_needs_positive_stride_witness :
  divideIntoPatches 1000 (Some 100) (Some 100) (Some (10, 10)) None None
    None = None.
Proof.
  apply (divideIntoPatches_needs_positive_stride 1000 100 100
           (Some (10, 10)) None None None).
  - left. reflexivity.
  - left. reflexivity.
Defined.

(** ** adjustImage *)

Lemma space_on_x_width (xmin xmax offsetXLeft offsetXRight frameWidth : Z) :
  0 <= xmin <= xmax -> xmax <= frameWidth ->
  0 <= offsetXLeft -> 0 <= offsetXRight ->
  let X := space_on_x xmin xmax offsetXLeft offsetXRight frameWidth in
  snd X - fst X <= (xmax - xmin) + (offsetXLeft + offsetXRight)
  /\ ((xmax - xmin) + (offsetXLeft + offsetXRight) <= frameWidth ->
      snd X - fst X = (xmax - xmin) + (offsetXLeft + offsetXRight)).
Proof.
  intros Hx Hf HL HR. unfold space_on_x.
  branches; cbn [fst snd]; lia.
Qed.

Lemma space_on_y_height (ymin ymax offsetYTop offsetYBottom frameHeight : Z) :
  0 <= ymin <= ymax -> ymax <= frameHeight ->
  0 <= offsetYBottom <= offsetYTop -> offsetYTop <= offsetYBottom + 1 ->
  let Y := space_on_y ymin ymax offsetYTop offsetYBottom frameHeight in
  snd Y - fst Y <= (ymax - ymin) + (offsetYTop + offsetYBottom) + 1
  /\ ((ymax - ymin) + (offsetYTop + offsetYBottom) <= frameHeight ->
      (ymax - ymin) + (offsetYTop + offsetYBottom) <= snd Y - fst Y).
Proof.
  intros Hy Hf HB HT. unfold space_on_y.
  branches; cbn [fst snd]; lia.
Qed.

(** The crop of a non-empty list of boxes inside the frame, together with
    the union box and the space the code adds on each axis. *)
Lemma adjustImage_crop (frameHeight frameWidth w h : Z) (boxes : list Box) :
  boxes <> [] ->
  Forall (inside_frame frameWidth frameHeight) boxes ->
  exists u : Box,
    unionBox boxes = Ok u
    /\ py_min (x_coordinates boxes) = Ok (b0 u)
    /\ py_max (x_coordinates boxes) = Ok (b2 u)
    /\ py_min (y_coordinates boxes) = Ok (b1 u)
    /\ py_max (y_coordinates boxes) = Ok (b3 u)
    /\ (0 <= b0 u <= b2 u /\ b2 u <= frameWidth)
    /\ (0 <= b1 u <= b3 u /\ b3 u <= frameHeight)
    /\ adjustImage (Some frameHeight) (Some frameWidth) (Some boxes)
         (Some [w; h])
       = let offsetX := axis_offset (b2 u - b0 u)
                          (fst (effective_offset frameHeight frameWidth w h)) in
         let offsetY := axis_offset (b3 u - b1 u)
                          (snd (effective_offset frameHeight frameWidth w h)) in
         let X := space_on_x (b0 u) (b2 u) (offsetX / 2)
                    (offsetX - offsetX / 2) frameWidth in
         let Y := space_on_y (b1 u) (b3 u) (offsetY - offsetY / 2)
                    (offsetY - (offsetY - offsetY / 2)) frameHeight in
         Ok (mkBox (fst X) (fst Y) (snd X) (snd Y)).
Proof.
  intros Hne Hall.
  destruct (unionBox_inside frameWidth frameHeight boxes Hne Hall)
    as (u & Hu & Hx0 & Hx1 & Hy0 & Hy1 & Hxs & Hxf & Hys & Hyf).
  exists u. repeat split; try assumption; try lia.
  apply adjustImage_unfold; assumption.
Qed.

Lemma axis_offset_cases (Roi axisOffset : Z) :
  axis_offset Roi axisOffset
  = if Roi <? axisOffset then axisOffset - Roi else 10.
Proof.
  unfold axis_offset. branches; lia.
Qed.

(** The crop is never wider than the union box plus the space asked for
    on the x axis, and exactly that wide whenever the frame is: the space
    that does not fit on one side is added on the other.  With margins
    below the frame dimensions and a union box narrower than the width
    margin, the crop is exactly as wide as the margin. *)
Theorem adjustImage_requested_width
  (frameHeight frameWidth marginWidth marginHeight : Z) (boxes : list Box) :
  boxes <> [] ->
  Forall (inside_frame frameWidth frameHeight) boxes ->
  exists crop union : Box,
    adjustImage (Some frameHeight) (Some frameWidth) (Some boxes)
      (Some [marginWidth; marginHeight]) = Ok crop
    /\ unionBox boxes = Ok union
    /\ let margins :=
         effective_offset frameHeight frameWidth marginWidth marginHeight in
       let roiX := b2 union - b0 union in
       let extraX := if roiX <? fst margins then fst margins - roiX else 10 in
       b2 crop - b0 crop <= roiX + extraX
       /\ (roiX + extraX <= frameWidth -> b2 crop - b0 crop = roiX + extraX)
       /\ (marginWidth < frameWidth -> marginHeight < frameHeight ->
           roiX < marginWidth -> b2 crop - b0 crop = marginWidth).
Proof.
  intros Hne Hall.
  destruct (adjustImage_crop frameHeight frameWidth marginWidth marginHeight
              boxes Hne Hall)
    as (u & Hu & _ & _ & _ & _ & [Hxs Hxf] & _ & Hcrop).
  eexists. exists u. split; [exact Hcrop|]. split; [exact Hu|].
  cbv zeta. cbn [b0 b1 b2 b3].
  rewrite <- axis_offset_cases.
  set (wo := fst (effective_offset _ _ _ _)).
  set (ox := axis_offset (b2 u - b0 u) wo).
  pose proof (halves ox (axis_offset_pos _ _)) as [Hox1 Hox2].
  pose proof (space_on_x_width (b0 u) (b2 u) (ox / 2) (ox - ox / 2)
                frameWidth Hxs Hxf ltac:(lia) ltac:(lia)) as [Hle Heq].
  cbv zeta in Hle, Heq.
  replace (ox / 2 + (ox - ox / 2)) with ox in Hle, Heq by ring.
  split; [exact Hle|]. split; [exact Heq|].
  intros Hmw Hmh Hroi.
  assert (Hwo : wo = marginWidth).
  { unfold wo, effective_offset.
    destruct (Z.leb_spec frameWidth marginWidth); [lia|].
    destruct (Z.leb_spec frameHeight marginHeight); [lia|]. reflexivity. }
  assert (Hox : ox = marginWidth - (b2 u - b0 u)).
  { unfold ox. rewrite axis_offset_cases, Hwo.
    destruct (Z.ltb_spec (b2 u - b0 u) marginWidth); lia. }
  rewrite Heq; lia.
Qed.

Lemma adjustImage_requested_width_witness :
  exists crop union : Box,
    adjustImage (Some 100) (Some 100)
      (Some [mkBox 2 10 20 20; mkBox 30 30 40 40]) (Some [60; 50]) = Ok crop
    /\ unionBox [mkBox 2 10 20 20; mkBox 30 30 40 40] = Ok union
    /\ b2 crop - b0 crop = 60.
Proof.
  destruct (adjustImage_requested_width 100 100 60 50
              [mkBox 2 10 20 20; mkBox 30 30 40 40])
    as (crop & union & Hc & Hu & Hsize).
  - discriminate.
  - repeat constructor; cbn; lia.
  - exists crop, union. split; [exact Hc|]. split; [exact Hu|].
    cbv zeta in Hsize. destruct Hsize as (_ & _ & Hm).
    injection Hu as <-. cbn [b0 b2] in Hm.
    apply Hm; vm_compute; reflexivity.
Defined.

(** On the y axis the crop is at most one pixel taller than the union box
    plus the space asked for, and at least that tall whenever the frame
    is. *)
Theorem adjustImage_requested_height
  (frameHeight frameWidth marginWidth marginHeight : Z) (boxes : list Box) :
  boxes <> [] ->
  Forall (inside_frame frameWidth frameHeight) boxes ->
  exists crop union : Box,
    adjustImage (Some frameHeight) (Some frameWidth) (Some boxes)
      (Some [marginWidth; marginHeight]) = Ok crop
    /\ unionBox boxes = Ok union
    /\ let margins :=
         effective_offset frameHeight frameWidth marginWidth marginHeight in
       let roiY := b3 union - b1 union in
       let extraY := if roiY <? snd margins then snd margins - roiY else 10 in
       b3 crop - b1 crop <= roiY + extraY + 1
       /\ (roiY + extraY <= frameHeight ->
           roiY + extraY <= b3 crop - b1 crop).
Proof.
  intros Hne Hall.
  destruct (adjustImage_crop frameHeight frameWidth marginWidth marginHeight
              boxes Hne Hall)
    as (u & Hu & _ & _ & _ & _ & _ & [Hys Hyf] & Hcrop).
  eexists. exists u. split; [exact Hcrop|]. split; [exact Hu|].
  cbv zeta. cbn [b0 b1 b2 b3].
  rewrite <- axis_offset_cases.
  set (ho := snd (effective_offset _ _ _ _)).
  set (oy := axis_offset (b3 u - b1 u) ho).
  pose proof (halves oy (axis_offset_pos _ _)) as [Hoy1 Hoy2].
  pose proof (space_on_y_height (b1 u) (b3 u) (oy - oy / 2)
                (oy - (oy - oy / 2)) frameHeight Hys Hyf
                ltac:(lia) ltac:(lia)) as [Hle Hge].
  cbv zeta in Hle, Hge.
  replace (oy - oy / 2 + (oy - (oy - oy / 2))) with oy in Hle, Hge by ring.
  split; [exact Hle|exact Hge].
Qed.

Lemma adjustImage_requested_height_witness :
  exists crop union : Box,
    adjustImage (Some 100) (Some 100)
      (Some [mkBox 2 10 20 20; mkBox 30 30 40 40]) (Some [60; 50]) = Ok crop
    /\ unionBox [mkBox 2 10 20 20; mkBox 30 30 40 40] = Ok union
    /\ b3 crop - b1 crop <= 51 /\ 50 <= b3 crop - b1 crop.
Proof.
  destruct (adjustImage_requested_height 100 100 60 50
              [mkBox 2 10 20 20; mkBox 30 30 40 40])
    as (crop & union & Hc & Hu & Hsize).
  - discriminate.
  - repeat constructor; cbn; lia.
  - exists crop, union. split; [exact Hc|]. split; [exact Hu|].
    cbv zeta in Hsize. destruct Hsize as (Hle & Hge).
    injection Hu as <-. cbn [b1 b3] in Hle, Hge.
    split; [exact Hle|]. apply Hge. vm_compute. discriminate.
Defined.

(** A margin that reaches the frame dimension on either axis is replaced
    on both axes by the smaller frame dimension minus 10: the call
    returns what a call with those margins returns. *)
Theorem adjustImage_oversized_margin
  (frameHeight frameWidth marginWidth marginHeight : Z)
  (boxes : option (list Box)) :
  frameWidth <= marginWidth \/ frameHeight <= marginHeight ->
  adjustImage (Some frameHeight) (Some frameWidth) boxes
    (Some [marginWidth; marginHeight])
  = adjustImage (Some frameHeight) (Some frameWidth) boxes
      (Some [Z.min frameWidth frameHeight - 10;
             Z.min frameWidth frameHeight - 10]).
Proof.
  intros Hover. unfold adjustImage. destruct boxes as [bs|]; [|reflexivity].
  assert (H1 : effective_offset frameHeight frameWidth marginWidth
                 marginHeight
               = (Z.min frameWidth frameHeight - 10,
                  Z.min frameWidth frameHeight - 10)).
  { unfold effective_offset.
    destruct (Z.leb_spec frameWidth marginWidth);
      destruct (Z.leb_spec frameHeight marginHeight);
      cbn [orb]; try reflexivity; lia. }
  assert (H2 : effective_offset frameHeight frameWidth
                 (Z.min frameWidth frameHeight - 10)
                 (Z.min frameWidth frameHeight - 10)
               = (Z.min frameWidth frameHeight - 10,
                  Z.min frameWidth frameHeight - 10)).
  { unfold effective_offset.
    destruct (Z.leb_spec frameWidth (Z.min frameWidth frameHeight - 10));
      [lia|].
    destruct (Z.leb_spec frameHeight (Z.min frameWidth frameHeight - 10));
      [lia|]. reflexivity. }
  rewrite H1, H2. reflexivity.
Qed.

Lemma adjustImage_oversized_margin_witness :
  adjustImage (Some 80) (Some 100) (Some [mkBox 10 10 20 20])
    (Some [300; 5])
  = adjustImage (Some 80) (Some 100) (Some [mkBox 10 10 20 20])
      (Some [Z.min 100 80 - 10; Z.min 100 80 - 10]).
Proof.
  apply (adjustImage_oversized_margin 80 100 300 5).
  left. lia.
Defined.

(** The exceptions of adjustImage: a missing argument, in the order frame
    height, frame width, boxes, offset; an offset that is not a pair; an
    empty list of boxes, on which [min] fails. *)
Theorem adjustImage_exceptions (frameHeight frameWidth : Z)
  (boxes : list Box) (offset : list Z) (fh fw : option Z)
  (bs : option (list Box)) (off : option (list Z)) :
  adjustImage None fw bs off
  = Raise (Exception "Parameter frameHeight cannot be empty.")
  /\ adjustImage (Some frameHeight) None bs off
     = Raise (Exception "Parameter frameWidth cannot be empty.")
  /\ adjustImage (Some frameHeight) (Some frameWidth) None off
     = Raise (Exception "Parameter bndboxes cannot be empty.")
  /\ adjustImage (Some frameHeight) (Some frameWidth) (Some boxes) None
     = Raise (Exception "Parameter offset cannot be empty.")
  /\ (List.length offset <> 2%nat ->
      adjustImage (Some frameHeight) (Some frameWidth) (Some boxes)
        (Some offset)
      = Raise (ValueError
                 "Parameter offset has to be of length 2 (width, height)."))
  /\ (List.length offset = 2%nat ->
      adjustImage (Some frameHeight) (Some frameWidth) (Some []) (Some offset)
      = Raise (ValueError "min() arg is an empty sequence")).
Proof.
  repeat (split; [reflexivity|]). split.
  - intros Hlen. unfold adjustImage.
    destruct offset as [|a [|b [|c rest]]]; cbn in Hlen;
      try reflexivity; lia.
  - intros Hlen. unfold adjustImage.
    destruct offset as [|a [|b [|c rest]]]; cbn in Hlen; try lia.
    destruct (effective_offset frameHeight frameWidth a b). reflexivity.
Qed.

Lemma adjustImage_exceptions_witness :
  adjustImage (Some 100) (Some 100) (Some [mkBox 1 1 2 2]) (Some [5; 5; 5])
  = Raise (ValueError
             "Parameter offset has to be of length 2 (width, height).")
  /\ adjustImage (Some 100) (Some 100) (Some []) (Some [5; 5])
     = Raise (ValueError "min() arg is an empty sequence").
Proof.
  split.
  - apply (adjustImage_exceptions 100 100 [mkBox 1 1 2 2] [5; 5; 5]
             None None None None).
    cbn. lia.
  - apply (adjustImage_exceptions 100 100 [] [5; 5] None None None None).
    reflexivity.
Defined.

(** ** includeBoundingBoxes *)

Lemma include_loop_spec_le (edges : Box) (boxes : list Box) :
  forall (names : list string) (accB : list Box) (accN : list string),
    (List.length boxes <= List.length names)%nat ->
    include_loop edges boxes names accB accN
    = Ok (accB ++ map fst (clip_spec edges (combine boxes names)),
          accN ++ map snd (clip_spec edges (combine boxes names))).
Proof.
  induction boxes as [|b bs IH]; intros names accB accN Hlen.
  - cbn. now rewrite !app_nil_r.
  - destruct names as [|name names']; [cbn in Hlen; lia|].
    cbn [List.length] in Hlen.
    cbn [include_loop]. rewrite include_box_spec. cbn [bind].
    unfold clip_spec. cbn [combine filter fst snd].
    destruct (contained edges b); rewrite IH by lia.
    + cbn [map fst snd]. unfold clip_spec.
      now rewrite <- !app_assoc.
    + reflexivity.
Qed.

(** With a name for every box, [includeBoundingBoxes] raises nothing and
    returns exactly the boxes contained in the edges, each translated to
    the origin of the edges, in input order and each with its own name;
    names beyond the last box are ignored.  As many names as boxes come
    back, and no more than went in. *)
Theorem includeBoundingBoxes_keeps_contained (edges : Box)
  (boxes : list Box) (names : list string) :
  (List.length boxes <= List.length names)%nat ->
  exists newBoxes newNames,
    includeBoundingBoxes (Some edges) (Some boxes) (Some names)
    = Ok (newBoxes, newNames)
    /\ combine newBoxes newNames
       = map (fun bl => (translate edges (fst bl), snd bl))
           (filter (fun bl => contained edges (fst bl))
              (combine boxes names))
    /\ List.length newBoxes = List.length newNames
    /\ (List.length newBoxes <= List.length boxes)%nat.
Proof.
  intros Hlen. do 2 eexists. split.
  - unfold includeBoundingBoxes. now rewrite include_loop_spec_le.
  - cbn [app]. fold (clip_spec edges (combine boxes names)).
    set (l := clip_spec edges (combine boxes names)).
    assert (Hl : (List.length l <= List.length boxes)%nat).
    { unfold l, clip_spec. rewrite length_map.
      etransitivity; [apply filter_length_le|].
      rewrite length_combine. lia. }
    split; [|split].
    + clear Hl. induction l as [|[b n] l IH]; [reflexivity|].
      cbn. now rewrite IH.
    + now rewrite !length_map.
    + now rewrite length_map.
Qed.

Lemma includeBoundingBoxes_keeps_contained_witness :
  exists newBoxes newNames,
    includeBoundingBoxes (Some (mkBox 10 10 50 50))
      (Some [mkBox 12 12 20 20; mkBox 5 12 20 20; mkBox 30 30 50 40])
      (Some ["a"; "b"; "c"; "d"]%string)
    = Ok (newBoxes, newNames)
    /\ combine newBoxes newNames
       = [(mkBox 2 2 10 10, "a"%string); (mkBox 20 20 39 30, "c"%string)]
    /\ List.length newBoxes = List.length newNames
    /\ (List.length newBoxes <= 3)%nat.
Proof.
  apply (includeBoundingBoxes_keeps_contained (mkBox 10 10 50 50)
           [mkBox 12 12 20 20; mkBox 5 12 20 20; mkBox 30 30 50 40]
           ["a"; "b"; "c"; "d"]%string).
  cbn. lia.
Defined.

(** For boxes of positive width and height with a name each, no
    coordinate that [includeBoundingBoxes] returns is negative or reaches
    the width (on x) or height (on y) of the edges. *)
Theorem includeBoundingBoxes_inside_edges (edges : Box)
  (boxes : list Box) (names : list string) :
  (List.length boxes <= List.length names)%nat ->
  Forall (fun b => b0 b < b2 b /\ b1 b < b3 b) boxes ->
  exists newBoxes newNames,
    includeBoundingBoxes (Some edges) (Some boxes) (Some names)
    = Ok (newBoxes, newNames)
    /\ Forall (fun t =>
         (0 <= b0 t < b2 edges - b0 edges /\ 0 <= b2 t < b2 edges - b0 edges)
         /\ (0 <= b1 t < b3 edges - b1 edges
             /\ 0 <= b3 t < b3 edges - b1 edges)) newBoxes.
Proof.
  intros Hlen Hpos. do 2 eexists. split.
  - unfold includeBoundingBoxes. now rewrite include_loop_spec_le.
  - cbn [app]. unfold clip_spec. rewrite map_map. cbn [fst].
    apply Forall_forall. intros t Ht.
    apply in_map_iff in Ht as ([b name] & <- & Hin).
    apply filter_In in Hin as [Hin Hc]. cbn [fst] in *.
    apply in_combine_l in Hin.
    rewrite Forall_forall in Hpos. destruct (Hpos b Hin) as [Hx Hy].
    exact (translate_inside edges b Hc Hx Hy).
Qed.

Lemma includeBoundingBoxes_inside_edges_witness :
  exists newBoxes newNames,
    includeBoundingBoxes (Some (mkBox 10 10 50 50))
      (Some [mkBox 12 12 20 20; mkBox 30 30 50 40])
      (Some ["a"; "b"]%string)
    = Ok (newBoxes, newNames)
    /\ Forall (fun t =>
         (0 <= b0 t < 50 - 10 /\ 0 <= b2 t < 50 - 10)
         /\ (0 <= b1 t < 50 - 10 /\ 0 <= b3 t < 50 - 10)) newBoxes.
Proof.
  apply (includeBoundingBoxes_inside_edges (mkBox 10 10 50 50)
           [mkBox 12 12 20 20; mkBox 30 30 50 40] ["a"; "b"]%string).
  - cbn. lia.
  - repeat constructor.
Defined.

Lemma include_loop_short_names (edges : Box) (boxes : list Box) :
  forall (names : list string) (accB : list Box) (accN : list string),
    (List.length names < List.length boxes)%nat ->
    include_loop edges boxes names accB accN = Raise IndexError.
Proof.
  induction boxes as [|b bs IH]; intros names accB accN Hlen.
  - cbn in Hlen. lia.
  - destruct names as [|name names']; [reflexivity|].
    cbn [List.length] in Hlen.
    cbn [include_loop]. rewrite include_box_spec. cbn [bind].
    destruct (contained edges b); apply IH; lia.
Qed.

(** With fewer names than boxes, [includeBoundingBoxes] fails with an
    IndexError whatever the boxes are: the name of a box is read before
    the box is tested. *)
Theorem includeBoundingBoxes_short_names (edges : Box)
  (boxes : list Box) (names : list string) :
  (List.length names < List.length boxes)%nat ->
  includeBoundingBoxes (Some edges) (Some boxes) (Some names)
  = Raise IndexError.
Proof.
  intros Hlen. unfold includeBoundingBoxes.
  now apply include_loop_short_names.
Qed.

Lemma includeBoundingBoxes_short_names_witness :
  includeBoundingBoxes (Some (mkBox 0 0 10 10))
    (Some [mkBox 1 1 2 2; mkBox 20 20 30 30]) (Some ["a"%string])
  = Raise IndexError.
Proof.
  apply (includeBoundingBoxes_short_names (mkBox 0 0 10 10)
           [mkBox 1 1 2 2; mkBox 20 20 30 30] ["a"%string]).
  cbn. lia.
Defined.

(** ** adjustImage, then includeBoundingBoxes *)

Lemma fold_min_le_all (xs : list Z) :
  forall x y, In y (x :: xs) -> fold_left Z.min xs x <= y.
Proof.
  induction xs as [|z zs IH]; intros x y Hin; cbn [fold_left].
  - destruct Hin as [->|[]]. lia.
  - destruct Hin as [->|[->|Hin]].
    + pose proof (fold_min_le zs (Z.min y z)). lia.
    + pose proof (fold_min_le zs (Z.min x y)). lia.
    + apply IH. right. exact Hin.
Qed.

Lemma fold_max_ge_all (xs : list Z) :
  forall x y, In y (x :: xs) -> y <= fold_left Z.max xs x.
Proof.
  induction xs as [|z zs IH]; intros x y Hin; cbn [fold_left].
  - destruct Hin as [->|[]]. lia.
  - destruct Hin as [->|[->|Hin]].
    + pose proof (fold_max_ge zs (Z.max y z)). lia.
    + pose proof (fold_max_ge zs (Z.max x y)). lia.
    + apply IH. right. exact Hin.
Qed.

Lemma py_min_le (l : list Z) (m y : Z) :
  py_min l = Ok m -> In y l -> m <= y.
Proof.
  destruct l as [|x xs]; [discriminate|].
  cbn [py_min]. intros [= <-] Hin. now apply fold_min_le_all.
Qed.

Lemma py_max_ge (l : list Z) (m y : Z) :
  py_max l = Ok m -> In y l -> y <= m.
Proof.
  destruct l as [|x xs]; [discriminate|].
  cbn [py_max]. intros [= <-] Hin. now apply fold_max_ge_all.
Qed.

Lemma coordinates_In (boxes : list Box) (b : Box) :
  In b boxes ->
  (In (b0 b) (x_coordinates boxes) /\ In (b2 b) (x_coordinates boxes))
  /\ (In (b1 b) (y_coordinates boxes) /\ In (b3 b) (y_coordinates boxes)).
Proof.
  intros Hin. unfold x_coordinates, y_coordinates.
  repeat split; apply in_flat_map; exists b; cbn; auto.
Qed.

Lemma clip_all_contained (crop : Box) (boxes : list Box) :
  forall names : list string,
    List.length names = List.length boxes ->
    Forall (fun b => contained crop b = true) boxes ->
    map fst (clip_spec crop (combine boxes names))
    = map (translate crop) boxes
    /\ map snd (clip_spec crop (combine boxes names)) = names.
Proof.
  induction boxes as [|b bs IH]; intros names Hlen Hall.
  - destruct names; [split; reflexivity|discriminate].
  - destruct names as [|n ns]; [discriminate|].
    injection Hlen as Hlen. inversion Hall as [|? ? Hb Hbs]; subst.
    destruct (IH ns Hlen Hbs) as [IH1 IH2].
    unfold clip_spec in *. cbn [combine filter fst]. rewrite Hb.
    cbn [map fst snd]. now rewrite IH1, IH2.
Qed.

(** The crop that [adjustImage] returns for a non-empty list of boxes
    inside the frame drops none of them: [includeBoundingBoxes] on that
    crop returns every box, translated, with the names unchanged. *)
Theorem adjustImage_then_includeBoundingBoxes
  (frameHeight frameWidth marginWidth marginHeight : Z)
  (boxes : list Box) (names : list string) :
  boxes <> [] ->
  Forall (inside_frame frameWidth frameHeight) boxes ->
  List.length names = List.length boxes ->
  exists crop : Box,
    adjustImage (Some frameHeight) (Some frameWidth) (Some boxes)
      (Some [marginWidth; marginHeight]) = Ok crop
    /\ includeBoundingBoxes (Some crop) (Some boxes) (Some names)
       = Ok (map (translate crop) boxes, names).
Proof.
  intros Hne Hall Hlen.
  destruct (adjustImage_crop frameHeight frameWidth marginWidth marginHeight
              boxes Hne Hall)
    as (u & Hu & Hx0 & Hx1 & Hy0 & Hy1 & [Hxs Hxf] & [Hys Hyf] & Hcrop).
  eexists. split; [exact Hcrop|]. cbv zeta.
  set (ox := axis_offset (b2 u - b0 u) _).
  set (oy := axis_offset (b3 u - b1 u) _).
  pose proof (halves ox (axis_offset_pos _ _)) as [Hox1 Hox2].
  pose proof (halves oy (axis_offset_pos _ _)) as [Hoy1 Hoy2].
  pose proof (space_on_x_bounds (b0 u) (b2 u) (ox / 2) (ox - ox / 2)
                frameWidth Hxs Hxf ltac:(lia) ltac:(lia)) as HX.
  pose proof (space_on_y_bounds (b1 u) (b3 u) (oy - oy / 2)
                (oy - (oy - oy / 2)) frameHeight Hys Hyf
                ltac:(lia) ltac:(lia)) as HY.
  set (X := space_on_x _ _ _ _ _) in *.
  set (Y := space_on_y _ _ _ _ _) in *.
  rewrite includeBoundingBoxes_filter_translate by assumption.
  assert (Hcont : Forall (fun b =>
                    contained (mkBox (fst X) (fst Y) (snd X) (snd Y)) b
                    = true) boxes).
  { apply Forall_forall. intros b Hin.
    destruct (coordinates_In boxes b Hin) as [[Ib0 Ib2] [Ib1 Ib3]].
    pose proof (py_min_le _ _ _ Hx0 Ib0).
    pose proof (py_max_ge _ _ _ Hx1 Ib2).
    pose proof (py_min_le _ _ _ Hy0 Ib1).
    pose proof (py_max_ge _ _ _ Hy1 Ib3).
    unfold contained. cbn [b0 b1 b2 b3].
    rewrite !andb_true_iff, !Z.geb_le, !Z.leb_le. lia. }
  destruct (clip_all_contained _ boxes names Hlen Hcont) as [-> ->].
  reflexivity.
Qed.

Lemma adjustImage_then_includeBoundingBoxes_witness :
  exists crop : Box,
    adjustImage (Some 100) (Some 100)
      (Some [mkBox 10 10 20 20; mkBox 30 30 40 40]) (Some [5; 5]) = Ok crop
    /\ includeBoundingBoxes (Some crop)
         (Some [mkBox 10 10 20 20; mkBox 30 30 40 40])
         (Some ["a"; "b"]%string)
       = Ok (map (translate crop) [mkBox 10 10 20 20; mkBox 30 30 40 40],
             ["a"; "b"]%string).
Proof.
  apply (adjustImage_then_includeBoundingBoxes 100 100 5 5
           [mkBox 10 10 20 20; mkBox 30 30 40 40] ["a"; "b"]%string).
  - discriminate.
  - repeat constructor; cbn; lia.
  - reflexivity.
Defined.

(** ** lazySAMEpad *)

Section FramePaddingModes.

Context {px : Type}.
Variable zero : px.

Lemma map_combine_repeat_r {A B C : Type} (f : A * B -> C) (b : B)
  (l : list A) :
  map f (combine l (repeat b (List.length l))) = map (fun a => f (a, b)) l.
Proof.
  induction l as [|a l IH]; [reflexivity|]. cbn. now rewrite IH.
Qed.

Lemma firstn_app_exact {A : Type} (l r : list A) (n : nat) :
  List.length l = n -> firstn n (l ++ r) = l.
Proof.
  intros <-. rewrite firstn_app, Nat.sub_diag, firstn_all. cbn.
  apply app_nil_r.
Qed.


Lemma lazySAMEpad_one_side_layout (frame : ndarray px)
  (zeros_h zeros_w : nat) :
  rectangular frame ->
  lazySAMEpad zero frame zeros_h zeros_w "ONE_SIDE"
  = Some (mkArray (shape_rows frame + zeros_h) (shape_cols frame + zeros_w)
            (map (fun row => row ++ repeat zero zeros_w) (pixels frame)
             ++ repeat (repeat zero (shape_cols frame + zeros_w)) zeros_h)).
Proof.
  intros [Hrows Hcols].
  unfold lazySAMEpad. cbn [String.eqb Ascii.eqb Bool.eqb].
  unfold assign_columns, r_, np_zeros.
  cbn [shape_rows shape_cols pixels]. f_equal. f_equal.
  set (cols := shape_cols frame) in *.
  set (P := pixels frame ++ repeat (repeat zero cols) zeros_h).
  assert (HP : (shape_rows frame + zeros_h)%nat = List.length P).
  { unfold P. rewrite length_app, repeat_length. lia. }
  assert (HPc : Forall (fun row => List.length row = cols) P).
  { unfold P. apply Forall_app. split; [exact Hcols|].
    apply Forall_forall. intros row Hin.
    apply repeat_spec in Hin as ->. apply repeat_length. }
  rewrite HP, map_combine_repeat. cbn [fst snd firstn app].
  rewrite skipn_repeat.
  replace (cols + zeros_w - cols)%nat with zeros_w by lia.
  rewrite <- (length_map (fun b => b ++ repeat zero zeros_w) P).
  rewrite map_combine_repeat_r. cbn [fst snd]. rewrite map_map.
  transitivity (map (fun row => row ++ repeat zero zeros_w) P).
  - apply map_ext_in. intros row Hin.
    rewrite Forall_forall in HPc. specialize (HPc row Hin).
    rewrite firstn_app_exact by exact HPc.
    rewrite skipn_all2 by (rewrite length_app, repeat_length; lia).
    now rewrite app_nil_r.
  - unfold P. rewrite map_app, map_repeat, <- repeat_app. reflexivity.
Qed.



End FramePaddingModes.



(** ** divideIntoPatches with SAME, then lazySAMEpad *)

(** What the SAME branch returns for positive strides. *)
Lemma divideIntoPatches_same_eq (fuel : nat) (imageWidth imageHeight : Z)
  (slideWindowSize strideSize : Z * Z) (numberPatches : option (Z * Z)) :
  let ww := clamp_to_image (fst slideWindowSize) imageWidth in
  let wh := clamp_to_image (snd slideWindowSize) imageHeight in
  let sw := clamp_to_image (fst strideSize) imageWidth in
  let sh := clamp_to_image (snd strideSize) imageHeight in
  let zh := computeSamePadding_spec wh sh imageHeight in
  let zw := computeSamePadding_spec ww sw imageWidth in
  0 < sw -> 0 < sh ->
  (Z.to_nat (imageWidth + sw - ww + 1) < fuel)%nat ->
  (Z.to_nat (imageHeight + sh - wh + 1) < fuel)%nat ->
  divideIntoPatches fuel (Some imageWidth) (Some imageHeight)
    (Some slideWindowSize) (Some strideSize) (Some "SAME"%string)
    numberPatches
  = Some (Ok (Patches5
       (row_major
          (Z.to_nat (countValidPatches_spec wh sh (imageHeight + zh)))
          (Z.to_nat (countValidPatches_spec ww sw (imageWidth + zw)))
          ww wh sw sh)
       (countValidPatches_spec wh sh (imageHeight + zh))
       (countValidPatches_spec ww sw (imageWidth + zw)) zh zw)).
Proof.
  intros ww wh sw sh zh zw Hsw Hsh Hfw Hfh.
  pose proof (clamp_to_image_le (fst slideWindowSize) imageWidth) as Hww.
  pose proof (clamp_to_image_le (snd slideWindowSize) imageHeight) as Hwh.
  fold ww in Hww. fold wh in Hwh.
  pose proof (computeSamePadding_bounds wh sh imageHeight Hsh Hwh) as Hzh.
  pose proof (computeSamePadding_bounds ww sw imageWidth Hsw Hww) as Hzw.
  fold zh in Hzh. fold zw in Hzw.
  unfold divideIntoPatches. cbn [or_default String.eqb].
  fold ww wh sw sh. unfold get_same_padding.
  rewrite (grow_closed_form sh imageHeight Hsh) by lia.
  rewrite (grow_closed_form sw imageWidth Hsw) by lia.
  destruct (same_zeros_closed_form ww sw imageWidth
              "Slide window + stride is bigger than width" Hsw
              ltac:(lia)) as [-> _].
  destruct (same_zeros_closed_form wh sh imageHeight
              "Slide window + stride is bigger than height" Hsh
              ltac:(lia)) as [-> _].
  cbn [bind]. fold zh zw. unfold get_valid_padding.
  rewrite (grow_closed_form sh (imageHeight + zh) Hsh) by lia.
  rewrite (grow_closed_form sw (imageWidth + zw) Hsw) by lia.
  rewrite !Z.add_0_l, enumerate_patches_row_major. reflexivity.
Qed.

(** A raster of the image's size, padded in ONE_SIDE mode by the zeros a
    SAME plan returns, holds every patch of the plan, and the last patch
    ends exactly on its bottom-right corner. *)
Theorem divideIntoPatches_same_fits_padded_frame {px : Type} (zero : px)
  (frame : ndarray px) (fuel : nat) (imageWidth imageHeight : Z)
  (slideWindowSize strideSize : Z * Z) (numberPatches : option (Z * Z)) :
  let windowWidth := clamp_to_image (fst slideWindowSize) imageWidth in
  let windowHeight := clamp_to_image (snd slideWindowSize) imageHeight in
  let strideWidth := clamp_to_image (fst strideSize) imageWidth in
  let strideHeight := clamp_to_image (snd strideSize) imageHeight in
  rectangular frame ->
  Z.of_nat (shape_rows frame) = imageHeight ->
  Z.of_nat (shape_cols frame) = imageWidth ->
  0 < strideWidth -> 0 < strideHeight ->
  (Z.to_nat (imageWidth + strideWidth - windowWidth + 1) < fuel)%nat ->
  (Z.to_nat (imageHeight + strideHeight - windowHeight + 1) < fuel)%nat ->
  exists coordinates rowCount colCount zeros_h zeros_w out,
    divideIntoPatches fuel (Some imageWidth) (Some imageHeight)
      (Some slideWindowSize) (Some strideSize) (Some "SAME"%string)
      numberPatches
    = Some (Ok (Patches5 coordinates rowCount colCount zeros_h zeros_w))
    /\ lazySAMEpad zero frame (Z.to_nat zeros_h) (Z.to_nat zeros_w)
         "ONE_SIDE" = Some out
    /\ Z.of_nat (shape_rows out) = imageHeight + zeros_h
    /\ Z.of_nat (shape_cols out) = imageWidth + zeros_w
    /\ Forall (fun p =>
         (0 <= b0 p /\ b2 p <= Z.of_nat (shape_cols out))
         /\ (0 <= b1 p /\ b3 p <= Z.of_nat (shape_rows out))) coordinates
    /\ windowWidth + strideWidth * (colCount - 1)
       = Z.of_nat (shape_cols out)
    /\ windowHeight + strideHeight * (rowCount - 1)
       = Z.of_nat (shape_rows out).
Proof.
  intros ww wh sw sh Hrect Hrows Hcols Hsw Hsh Hfw Hfh.
  pose proof (clamp_to_image_le (fst slideWindowSize) imageWidth) as Hww.
  pose proof (clamp_to_image_le (snd slideWindowSize) imageHeight) as Hwh.
  fold ww in Hww. fold wh in Hwh.
  pose proof (computeSamePadding_bounds wh sh imageHeight Hsh Hwh) as Hzh.
  pose proof (computeSamePadding_bounds ww sw imageWidth Hsw Hww) as Hzw.
  pose proof (same_padding_exact wh sh imageHeight Hsh Hwh) as Heh.
  pose proof (same_padding_exact ww sw imageWidth Hsw Hww) as Hew.
  unfold fittedExtent_spec in Heh, Hew.
  set (zh := computeSamePadding_spec wh sh imageHeight) in *.
  set (zw := computeSamePadding_spec ww sw imageWidth) in *.
  set (rows := countValidPatches_spec wh sh (imageHeight + zh)) in *.
  set (cols := countValidPatches_spec ww sw (imageWidth + zw)) in *.
  exists (row_major (Z.to_nat rows) (Z.to_nat cols) ww wh sw sh),
    rows, cols, zh, zw.
  eexists. split.
  { apply divideIntoPatches_same_eq; assumption. }
  split; [now apply lazySAMEpad_one_side_layout|].
  cbn [shape_rows shape_cols].
  assert (Hor : Z.of_nat (shape_rows frame + Z.to_nat zh) = imageHeight + zh)
    by lia.
  assert (Hoc : Z.of_nat (shape_cols frame + Z.to_nat zw) = imageWidth + zw)
    by lia.
  rewrite Hor, Hoc.
  split; [reflexivity|]. split; [reflexivity|].
  split; [|split; assumption].
  apply Forall_forall. intros p Hin.
  apply row_major_In in Hin as (i & j & Hi & Hj & ->).
  unfold patch_at. cbn [b0 b1 b2 b3].
  repeat split; nia.
Qed.

Lemma divideIntoPatches_same_fits_padded_frame_witness :
  exists coordinates rowCount colCount zeros_h zeros_w out,
    divideIntoPatches 20 (Some 3) (Some 2) (Some (2, 2)) (Some (2, 1))
      (Some "SAME"%string) None
    = Some (Ok (Patches5 coordinates rowCount colCount zeros_h zeros_w))
    /\ lazySAMEpad 0 (mkArray 2 3 [[1; 2; 3]; [4; 5; 6]])
         (Z.to_nat zeros_h) (Z.to_nat zeros_w) "ONE_SIDE" = Some out
    /\ Z.of_nat (shape_rows out) = 2 + zeros_h
    /\ Z.of_nat (shape_cols out) = 3 + zeros_w
    /\ Forall (fun p =>
         (0 <= b0 p /\ b2 p <= Z.of_nat (shape_cols out))
         /\ (0 <= b1 p /\ b3 p <= Z.of_nat (shape_rows out))) coordinates
    /\ 2 + 2 * (colCount - 1) = Z.of_nat (shape_cols out)
    /\ 2 + 1 * (rowCount - 1) = Z.of_nat (shape_rows out).
Proof.
  apply (divideIntoPatches_same_fits_padded_frame 0
           (mkArray 2 3 [[1; 2; 3]; [4; 5; 6]]) 20 3 2 (2, 2) (2, 1) None).
  - split; [reflexivity|]. repeat constructor.
  - reflexivity.
  - reflexivity.
  - vm_compute; reflexivity.
  - vm_compute; reflexivity.
  - vm_compute; lia.
  - vm_compute; lia.
Defined.

(** ** More on adjustImage and VALID_FIT_ALL *)

Lemma space_on_x_sides (xmin xmax offsetXLeft offsetXRight frameWidth : Z) :
  0 <= xmin <= xmax -> xmax <= frameWidth ->
  0 <= offsetXLeft -> 0 <= offsetXRight ->
  let X := space_on_x xmin xmax offsetXLeft offsetXRight frameWidth in
  (fst X = 0 \/ fst X <= xmin - offsetXLeft)
  /\ (snd X = frameWidth \/ xmax + offsetXRight <= snd X).
Proof.
  intros Hx Hf HL HR. unfold space_on_x.
  branches; cbn [fst snd]; lia.
Qed.

Lemma space_on_y_sides (ymin ymax offsetYTop offsetYBottom frameHeight : Z) :
  0 <= ymin <= ymax -> ymax <= frameHeight ->
  0 <= offsetYBottom <= offsetYTop ->
  let Y := space_on_y ymin ymax offsetYTop offsetYBottom frameHeight in
  (fst Y = 0 \/ fst Y <= ymin - offsetYTop)
  /\ (snd Y = frameHeight \/ ymax + offsetYBottom <= snd Y).
Proof.
  intros Hy Hf HB. unfold space_on_y.
  branches; cbn [fst snd]; lia.
Qed.

(** On every side the crop either reaches the edge of the frame or lies
    at least that side's share of the added space away from the union
    box: [extra // 2] on the left and below, the rest on the right and
    above, with [extra] at least 1, and 10 when the union box is as
    large as the margin. *)
Theorem adjustImage_context_on_each_side
  (frameHeight frameWidth marginWidth marginHeight : Z) (boxes : list Box) :
  boxes <> [] ->
  Forall (inside_frame frameWidth frameHeight) boxes ->
  exists crop union : Box,
    adjustImage (Some frameHeight) (Some frameWidth) (Some boxes)
      (Some [marginWidth; marginHeight]) = Ok crop
    /\ unionBox boxes = Ok union
    /\ let margins :=
         effective_offset frameHeight frameWidth marginWidth marginHeight in
       let roiX := b2 union - b0 union in
       let roiY := b3 union - b1 union in
       let extraX := if roiX <? fst margins then fst margins - roiX else 10 in
       let extraY := if roiY <? snd margins then snd margins - roiY else 10 in
       1 <= extraX /\ 1 <= extraY
       /\ (b0 crop = 0 \/ b0 crop <= b0 union - extraX / 2)
       /\ (b2 crop = frameWidth
           \/ b2 union + (extraX - extraX / 2) <= b2 crop)
       /\ (b1 crop = 0 \/ b1 crop <= b1 union - (extraY - extraY / 2))
       /\ (b3 crop = frameHeight \/ b3 union + extraY / 2 <= b3 crop).
Proof.
  intros Hne Hall.
  destruct (adjustImage_crop frameHeight frameWidth marginWidth marginHeight
              boxes Hne Hall)
    as (u & Hu & _ & _ & _ & _ & [Hxs Hxf] & [Hys Hyf] & Hcrop).
  eexists. exists u. split; [exact Hcrop|]. split; [exact Hu|].
  cbv zeta. cbn [b0 b1 b2 b3].
  rewrite <- !axis_offset_cases.
  set (ox := axis_offset (b2 u - b0 u) _).
  set (oy := axis_offset (b3 u - b1 u) _).
  pose proof (axis_offset_pos (b2 u - b0 u)
                (fst (effective_offset frameHeight frameWidth marginWidth
                        marginHeight))) as Hox.
  pose proof (axis_offset_pos (b3 u - b1 u)
                (snd (effective_offset frameHeight frameWidth marginWidth
                        marginHeight))) as Hoy.
  fold ox in Hox. fold oy in Hoy.
  pose proof (halves ox Hox) as [Hox1 Hox2].
  pose proof (halves oy Hoy) as [Hoy1 Hoy2].
  pose proof (space_on_x_sides (b0 u) (b2 u) (ox / 2) (ox - ox / 2)
                frameWidth Hxs Hxf ltac:(lia) ltac:(lia)) as [HX0 HX1].
  pose proof (space_on_y_sides (b1 u) (b3 u) (oy - oy / 2)
                (oy - (oy - oy / 2)) frameHeight Hys Hyf
                ltac:(lia)) as [HY0 HY1].
  cbv zeta in HX0, HX1, HY0, HY1.
  replace (oy - (oy - oy / 2)) with (oy / 2) in HY0, HY1 |- * by ring.
  repeat split; assumption.
Qed.

Lemma adjustImage_context_on_each_side_witness :
  exists crop union : Box,
    adjustImage (Some 100) (Some 100)
      (Some [mkBox 2 10 20 20; mkBox 30 30 40 40]) (Some [5; 5]) = Ok crop
    /\ unionBox [mkBox 2 10 20 20; mkBox 30 30 40 40] = Ok union
    /\ (b0 crop = 0 \/ b0 crop <= 2 - 5)
    /\ (b2 crop = 100 \/ 40 + 5 <= b2 crop)
    /\ (b1 crop = 0 \/ b1 crop <= 10 - 5)
    /\ (b3 crop = 100 \/ 40 + 5 <= b3 crop).
Proof.
  destruct (adjustImage_context_on_each_side 100 100 5 5
              [mkBox 2 10 20 20; mkBox 30 30 40 40])
    as (crop & union & Hc & Hu & Hsides).
  - discriminate.
  - repeat constructor; cbn; lia.
  - exists crop, union. split; [exact Hc|]. split; [exact Hu|].
    cbv zeta in Hsides. injection Hu as <-. cbn [b0 b1 b2 b3] in Hsides.
    destruct Hsides as (_ & _ & H0 & H2 & H1 & H3).
    repeat split; assumption.
Defined.


